(** * The weld plugin of mcvm: event protocol and directory reconciliation

    A shallow embedding of [plugins/weld/main.py]:
    the line protocol of [output], the quarantine-and-merge pass of
    [weld_dir], the hook handler [run] and the module body that calls
    [run] and then reports [set_result].

    The Python program acts on the file system, on the standard output
    and on the external merge engine ([smithed.weld.run_weld]); the
    embedding threads one [World] through a state-and-exception monad.
    A raised exception keeps the effects performed before it.

    The merge engine is library code that the program enters, uses and
    leaves through a [with] statement.  It is a parameter of the embedding:
    whatever it does to the file system and prints, and whether it raises
    when it is entered, when the merged pack is saved or when it is left.
    The engine as the specification takes it, a function that reads and
    changes nothing, is the instance [quiet]. *)

From Stdlib Require Import String Ascii DecimalString.
From stdpp Require Import gmap strings list fin_maps sorting.

Local Open Scope string_scope.
Local Open Scope list_scope.

(** ** Strings *)

(** The double quote and the backslash, as one-character strings. *)
Definition dq : string := String "034"%char EmptyString.
Definition bs : string := String "092"%char EmptyString.

(** Python's [needle in hay] on strings: substring containment. *)
Fixpoint contains (needle hay : string) : bool :=
  String.prefix needle hay
  || match hay with
     | EmptyString => false
     | String _ rest => contains needle rest
     end.

(** [sep.join(items)]. *)
Fixpoint str_join (sep : string) (items : list string) : string :=
  match items with
  | [] => ""
  | [x] => x
  | x :: rest => x +:+ sep +:+ str_join sep rest
  end.

(** ** JSON values and [json.dumps] *)

(** The values [json.loads] produces and [json.dumps] consumes.  Python's
    [None] is [JNull]; a [dict] keeps its insertion order. *)
#[warnings="-register-all"]
Inductive json : Type :=
| JNull
| JBool (b : bool)
| JInt (z : Z)
| JFloat (repr : string)
| JStr (s : string)
| JArr (items : list json)
| JObj (fields : list (string * json)).

Definition hex_digit (n : N) : ascii :=
  match n with
  | 0 => "0" | 1 => "1" | 2 => "2" | 3 => "3" | 4 => "4" | 5 => "5"
  | 6 => "6" | 7 => "7" | 8 => "8" | 9 => "9" | 10 => "a" | 11 => "b"
  | 12 => "c" | 13 => "d" | 14 => "e" | _ => "f"
  end%N%char.

(** [\u00XX] for a code point below 256. *)
Definition u_escape (c : ascii) : string :=
  let n := N_of_ascii c in
  bs +:+ "u00" +:+ String (hex_digit (n / 16)) (String (hex_digit (n mod 16)) "").

(** One character of a string under [json.dumps] with [ensure_ascii]
    (the default): quote and backslash are escaped, and every character
    outside the printable range from the space to the tilde becomes a
    backslash escape. *)
Definition escape_char (c : ascii) : string :=
  let n := N_of_ascii c in
  if (n =? 34)%N then bs +:+ dq
  else if (n =? 92)%N then bs +:+ bs
  else if (n =? 10)%N then bs +:+ "n"
  else if (n =? 13)%N then bs +:+ "r"
  else if (n =? 9)%N then bs +:+ "t"
  else if (n =? 8)%N then bs +:+ "b"
  else if (n =? 12)%N then bs +:+ "f"
  else if (n <? 32)%N || (126 <? n)%N then u_escape c
  else String c "".

Fixpoint escape_string (s : string) : string :=
  match s with
  | EmptyString => ""
  | String c rest => escape_char c +:+ escape_string rest
  end.

Definition dumps_str (s : string) : string := dq +:+ escape_string s +:+ dq.

Definition dumps_int (z : Z) : string :=
  NilZero.string_of_int (Z.to_int z).

(** [json.dumps(v)] with the default separators [", "] and [": "]. *)
Fixpoint json_dumps (v : json) : string :=
  match v with
  | JNull => "null"
  | JBool true => "true"
  | JBool false => "false"
  | JInt z => dumps_int z
  | JFloat r => r
  | JStr s => dumps_str s
  | JArr items => "[" +:+ str_join ", " (map json_dumps items) +:+ "]"
  | JObj fields =>
      "{" +:+ str_join ", "
                (map (fun kv => dumps_str (fst kv) +:+ ": " +:+ json_dumps (snd kv))
                     fields)
          +:+ "}"
  end.

(** [d[key]] on a [dict]. *)
Fixpoint dict_get (key : string) (fields : list (string * json)) : option json :=
  match fields with
  | [] => None
  | (k, v) :: rest => if String.eqb k key then Some v else dict_get key rest
  end.

(** ** Exceptions *)

(** The exceptions the program can meet.  [OSError] stands for the class and
    its subclasses ([FileNotFoundError], [FileExistsError],
    [NotADirectoryError], [IsADirectoryError]); [Exception] is whatever the
    merge engine raises. *)
Inductive exn : Type :=
| IndexError
| JSONDecodeError
| KeyError
| TypeError
| AttributeError
| StopIteration
| OSError
| Exception (what : string).

Inductive result (A : Type) : Type :=
| Ok (a : A)
| Raise (e : exn).
Arguments Ok {A} a.
Arguments Raise {A} e.

(** ** Paths *)

(** A [pathlib.Path] as its [parts]; an absolute path starts with the
    part ["/"]. *)
Abbreviation Path := (list string).

(** Splits at every ["/"]; [cur] is the component read so far. *)
Fixpoint split_slash (s cur : string) : list string :=
  match s with
  | EmptyString => [cur]
  | String c rest =>
      if Ascii.eqb c "/" then cur :: split_slash rest ""
      else split_slash rest (cur +:+ String c "")
  end.

(** Empty components and ["."] are dropped when a path is parsed. *)
Definition kept_part (s : string) : bool :=
  negb (String.eqb s "" || String.eqb s ".").

(** [Path(s)] on a POSIX system.  Exactly two leading slashes are kept
    as the root ["//"], any other number of them is the root ["/"]. *)
Definition Path_of_string (s : string) : Path :=
  let parts := filter (fun p => Is_true (kept_part p)) (split_slash s "") in
  if String.prefix "///" s then "/" :: parts
  else if String.prefix "//" s then "//" :: parts
  else if String.prefix "/" s then "/" :: parts
  else parts.

Definition is_root (part : string) : bool :=
  String.eqb part "/" || String.eqb part "//".

Definition is_absolute (p : Path) : bool :=
  match p with
  | r :: _ => is_root r
  | [] => false
  end.

(** [str(p)]. *)
Definition Path_str (p : Path) : string :=
  match p with
  | [] => "."
  | r :: rest => if is_root r then r +:+ str_join "/" rest else str_join "/" p
  end.

(** [p.joinpath(q)] once [q] is parsed: an absolute [q] replaces [p]. *)
Definition joinpath_parts (p q : Path) : Path :=
  if is_absolute q then q else p ++ q.

(** [p.joinpath(s)] for an arbitrary string. *)
Definition joinpath_str (p : Path) (s : string) : Path :=
  joinpath_parts p (Path_of_string s).

(** [p.joinpath(name)] for one directory entry name, as [os.listdir] and
    [os.walk] return them, or a literal single component: such a name holds
    no separator and is not a root, the result has one more part. *)
Definition joinpath (p : Path) (name : string) : Path := p ++ [name].

(** [under p k] is [Some rest] when [k = p ++ rest]. *)
Fixpoint under (p k : Path) : option Path :=
  match p, k with
  | [], _ => Some k
  | a :: p', b :: k' => if String.eqb a b then under p' k' else None
  | _ :: _, [] => None
  end.

(** The directory a path lies in. *)
Definition parent (p : Path) : Path := removelast p.

(** ** The file system *)

(** Regular files with their content, and directories.  The file system
    maps each path that exists to what is there; the root and the working
    directory are entries like any other (the keys [["/"]] and [[]]).
    Symbolic links are outside the model. *)
Inductive node : Type :=
| File (data : string)
| Dir.

#[global] Instance node_eq_dec : EqDecision node.
Proof. solve_decision. Defined.

(** One invocation of the merge engine: the arguments of [run_weld]. *)
Record WeldCall : Type := mkWeldCall {
  call_packs : list Path;
  call_config : list (string * string);
  call_directory : Path
}.

(** What the program acts on: the file system, the lines printed so far,
    and the invocations of the merge engine so far. *)
Record World : Type := mkWorld {
  fs : gmap Path node;
  stdout : list string;
  weld_calls : list WeldCall
}.

Definition set_fs (w : World) (f : gmap Path node) : World :=
  mkWorld f (stdout w) (weld_calls w).

(** ** The monad: state, and exceptions that keep the state *)

Definition M (A : Type) : Type := World -> result A * World.

Definition ret {A} (a : A) : M A := fun w => (Ok a, w).

Definition raise {A} (e : exn) : M A := fun w => (Raise e, w).

Definition bind {A B} (c : M A) (k : A -> M B) : M B :=
  fun w =>
    match c w with
    | (Ok a, w') => k a w'
    | (Raise e, w') => (Raise e, w')
    end.

Declare Scope weld_scope.
Delimit Scope weld_scope with weld.
Notation "x <- c ;; k" := (bind c (fun x => k))
  (at level 100, c at next level, k at level 200, right associativity,
   only parsing) : weld_scope.
Notation "c ;; k" := (bind c (fun _ => k))
  (at level 100, k at level 200, right associativity, only parsing) : weld_scope.
Local Open Scope weld_scope.

(** [for x in l: body(x)]. *)
Fixpoint for_ {A} (l : list A) (body : A -> M unit) : M unit :=
  match l with
  | [] => ret tt
  | x :: rest => body x ;; for_ rest body
  end.

(** A [for] loop that grows a local accumulator. *)
Fixpoint for_acc {A S} (l : list A) (body : A -> S -> M S) (acc : S) : M S :=
  match l with
  | [] => ret acc
  | x :: rest => acc' <- body x acc ;; for_acc rest body acc'
  end.

(** ** File-system primitives *)

(** The name of [k] when [k] is a direct entry of [p]. *)
Definition entry_name (p k : Path) : option string :=
  match under p k with
  | Some [name] => Some name
  | _ => None
  end.

(** The names of the direct entries of [p].  [os.listdir] promises no
    order; the model lists the names in increasing order, so that a listing
    is a function of what the directory holds.  What is stated about the
    packs handed to the merge engine is stated for every order of them
    ([is_weld_call]). *)
Definition children (f : gmap Path node) (p : Path) : list string :=
  merge_sort String.le (omap (fun kv => entry_name p (fst kv)) (map_to_list f)).

(** [os.listdir(p)]. *)
Definition os_listdir (p : Path) : M (list string) :=
  fun w =>
    match fs w !! p with
    | Some Dir => (Ok (children (fs w) p), w)
    | _ => (Raise OSError, w)
    end.

(** [p.exists()]. *)
Definition Path_exists (p : Path) : M bool :=
  fun w => (Ok (bool_decide (is_Some (fs w !! p))), w).

(** [p.is_file()]. *)
Definition Path_is_file (p : Path) : M bool :=
  fun w =>
    (Ok match fs w !! p with Some (File _) => true | _ => false end, w).

(** [os.mkdir(p)]: [p] must be free and lie in a directory. *)
Definition os_mkdir (p : Path) : M unit :=
  fun w =>
    match fs w !! p, fs w !! parent p with
    | None, Some Dir => (Ok tt, set_fs w (<[p := Dir]> (fs w)))
    | _, _ => (Raise OSError, w)
    end.

(** [os.remove(p)]: removes a regular file, refuses a directory. *)
Definition os_remove (p : Path) : M unit :=
  fun w =>
    match fs w !! p with
    | Some (File _) => (Ok tt, set_fs w (delete p (fs w)))
    | _ => (Raise OSError, w)
    end.

(** Every entry at or below [src] moves to the same place below [dst]. *)
Definition move_tree (src dst : Path) (f : gmap Path node) : gmap Path node :=
  list_to_map
    (map (fun kv => match under src (fst kv) with
                    | Some rest => (dst ++ rest, snd kv)
                    | None => kv
                    end)
         (map_to_list f)).

(** [os.rename(src, dst)] on a POSIX system.  A regular file replaces a
    regular file at [dst] and is refused by a directory there.  A directory
    moves with all it holds when [dst] is free and not inside it; the model
    refuses every other move of a directory ([weld_dir] renames regular
    files only). *)
Definition os_rename (src dst : Path) : M unit :=
  fun w =>
    match fs w !! src, fs w !! parent dst with
    | Some (File data), Some Dir =>
        match fs w !! dst with
        | Some Dir => (Raise OSError, w)
        | _ => (Ok tt, set_fs w (<[dst := File data]> (delete src (fs w))))
        end
    | Some Dir, Some Dir =>
        match fs w !! dst, under src dst with
        | None, None => (Ok tt, set_fs w (move_tree src dst (fs w)))
        | _, _ => (Raise OSError, w)
        end
    | _, _ => (Raise OSError, w)
    end.

(** [next(os.walk(p))[1]]: the immediate subdirectories of [p].  [os.walk]
    swallows the error of a missing or unreadable [p] and yields nothing, so
    [next] raises [StopIteration]. *)
Definition os_walk_dirnames (p : Path) : M (list string) :=
  fun w =>
    match fs w !! p with
    | Some Dir =>
        (Ok (filter (fun name => fs w !! joinpath p name = Some Dir)
                    (children (fs w) p)), w)
    | _ => (Raise StopIteration, w)
    end.

(** [print(line)]. *)
Definition print (line : string) : M unit :=
  fun w => (Ok tt, mkWorld (fs w) (stdout w ++ [line]) (weld_calls w)).

(** ** Library code and the [with] statement *)

(** What code of the merge library does when it runs on a file system: it
    returns or raises, it leaves a file system, and it may have printed
    lines. *)
Definition Lib (A : Type) : Type :=
  gmap Path node -> result A * gmap Path node * list string.

(** Library code run by the program. *)
Definition lib {A} (c : Lib A) : M A :=
  fun w =>
    let '(r, f, out) := c (fs w) in
    (r, mkWorld f (stdout w ++ out) (weld_calls w)).

(** What a block [with run_weld(...) as ctx] has in hand once it is
    entered: the method [ctx.data.save(path=..., overwrite=True)], and what
    leaving the block does.  Leaving is told the exception that ended the
    block, if any, and answers whether it swallows that exception. *)
Record Entered : Type := mkEntered {
  ctx_data_save : Path -> Lib unit;
  leave : option exn -> Lib bool
}.

(** [with enter as ctx: body(ctx)].  When entering raises, the block is not
    run and nothing is left.  When the block returns, the manager is left;
    when the block raises, the manager is left with that exception, which is
    raised again unless the manager swallows it.  What leaving raises is
    raised in both cases. *)
Definition with_ (enter : M Entered) (body : Entered -> M unit) : M unit :=
  fun w =>
    match enter w with
    | (Raise e, w1) => (Raise e, w1)
    | (Ok ctx, w1) =>
        match body ctx w1 with
        | (Ok _, w2) =>
            match lib (leave ctx None) w2 with
            | (Ok _, w3) => (Ok tt, w3)
            | (Raise e, w3) => (Raise e, w3)
            end
        | (Raise e, w2) =>
            match lib (leave ctx (Some e)) w2 with
            | (Ok true, w3) => (Ok tt, w3)
            | (Ok false, w3) => (Raise e, w3)
            | (Raise e', w3) => (Raise e', w3)
            end
        end
    end.

(** The type of [run_weld]: the packs, the configuration and the working
    directory give the library code that enters the engine. *)
Abbreviation RunWeld :=
  (list Path -> list (string * string) -> Path -> Lib Entered).

(** ** The program *)

(** [output(method, data=None)]. *)
Definition output (method : string) (data : json) : M unit :=
  match data with
  | JNull => print ("%_" +:+ dq +:+ method +:+ dq)
  | _ =>
      let out := JObj [(method, data)] in
      let out2 := json_dumps out in
      print ("%_" +:+ out2)
  end.

Section Plugin.

(** [smithed.weld.run_weld], the external merge engine, a context manager:
    entering it with the packs, the configuration and the working directory
    hands back the context [ctx] or raises. *)
Variable run_weld : RunWeld.

(** [json.loads]. *)
Variable json_loads : string -> result json.

(** Entering [with run_weld(packs=..., config=..., directory=...) as ctx]:
    the call is recorded, then the engine runs. *)
Definition enter_run_weld (packs : list Path) (config : list (string * string))
    (directory : Path) : M Entered :=
  fun w =>
    lib (run_weld packs config directory)
        (mkWorld (fs w) (stdout w)
                 (weld_calls w ++ [mkWeldCall packs config directory])).

(** The body of the loop of [weld_dir] over the entries of [dir]. *)
Definition quarantine_entry (dir unwelded_path : Path) (entry : string) : M unit :=
  let path := joinpath dir entry in
  if contains "weld_pack" entry then ret tt
  else
    is_file <- Path_is_file path ;;
    if is_file : bool then
      let target := joinpath unwelded_path entry in
      target_exists <- Path_exists target ;;
      (if target_exists : bool then os_remove target else ret tt) ;;
      os_rename path target
    else ret tt.

(** [weld_dir], first half: the holding directory is made when missing and
    every loose file is moved into it. *)
Definition weld_dir_quarantine (dir : Path) : M unit :=
  let unwelded_path := joinpath dir "unwelded" in
  unwelded_exists <- Path_exists unwelded_path ;;
  (if unwelded_exists : bool then ret tt else os_mkdir unwelded_path) ;;
  entries <- os_listdir dir ;;
  for_ entries (quarantine_entry dir unwelded_path).

(** [weld_dir], second half ("Now Weld"). *)
Definition weld_dir_weld (dir : Path) : M unit :=
  let unwelded_path := joinpath dir "unwelded" in
  let beet_config := [("output", Path_str dir)] in
  names <- os_listdir unwelded_path ;;
  let packs := map (fun x => joinpath dir x) names in
  with_ (enter_run_weld packs beet_config dir)
        (fun ctx => lib (ctx_data_save ctx (joinpath dir "weld_pack.zip"))).

Definition weld_dir (dir : Path) : M unit :=
  weld_dir_quarantine dir ;; weld_dir_weld dir.

(** [sys.argv[i]]. *)
Definition sys_argv (argv : list string) (i : nat) : M string :=
  match argv !! i with
  | Some s => ret s
  | None => raise IndexError
  end.

(** [v[key]] for a string [key]: only a [dict] can be indexed by a string. *)
Definition getitem (v : json) (key : string) : M json :=
  match v with
  | JObj fields =>
      match dict_get key fields with
      | Some x => ret x
      | None => raise KeyError
      end
  | _ => raise TypeError
  end.

(** [v == s] for a string literal [s]. *)
Definition eq_str (v : json) (s : string) : bool :=
  match v with
  | JStr s' => String.eqb s' s
  | _ => false
  end.

(** [Path(v)]: a string is parsed, anything else is a [TypeError]. *)
Definition Path_new (v : json) : M Path :=
  match v with
  | JStr s => ret (Path_of_string s)
  | _ => raise TypeError
  end.

(** [p.joinpath(v)] for a value [v] that is not [None]. *)
Definition joinpath_value (p : Path) (v : json) : M Path :=
  match v with
  | JStr s => ret (joinpath_str p s)
  | _ => raise TypeError
  end.

(** [p.join]: a [pathlib.Path] has the method [joinpath] and no attribute
    [join], so the attribute lookup raises before any argument is looked at. *)
Definition Path_join (p : Path) : M (string -> Path) :=
  raise AttributeError.

(** [s[0]]. *)
Definition str_first (s : string) : M string :=
  match s with
  | String c _ => ret (String c "")
  | EmptyString => raise IndexError
  end.

(** The directories of the datapacks ("Figure out the paths to load packs
    into"). *)
Definition datapack_dirs_of (arg : json) (game_dir : Path) : M (list Path) :=
  config <- getitem arg "config" ;;
  datapack_folder <- getitem config "datapack_folder" ;;
  match datapack_folder with
  | JNull =>
      side <- getitem arg "side" ;;
      if eq_str side "client" then
        let saves_dir := joinpath game_dir "saves" in
        dirnames <- os_walk_dirnames saves_dir ;;
        for_acc dirnames
          (fun entry datapack_dirs =>
             join <- Path_join saves_dir ;;
             first <- str_first entry ;;
             ret (datapack_dirs ++ [join first]))
          []
      else ret [joinpath (joinpath game_dir "world") "datapacks"]
  | _ =>
      dir <- joinpath_value game_dir datapack_folder ;;
      ret [dir]
  end.

Definition start_message : json :=
  JObj [("contents", JObj [("StartProcess", JStr "Welding packs")]);
        ("level", JStr "important")].

Definition success_message : json :=
  JObj [("contents", JObj [("Success", JStr "Packs welded")]);
        ("level", JStr "important")].

(** [run()], the hook handler. *)
Definition run (argv : list string) : M unit :=
  hook <- sys_argv argv 1 ;;
  if negb (String.eqb hook "on_instance_setup") then ret tt
  else
    arg_raw <- sys_argv argv 2 ;;
    arg <- (fun w => (json_loads arg_raw, w)) ;;
    update_depth <- getitem arg "update_depth" ;;
    if eq_str update_depth "shallow" then ret tt
    else
      output "start_process" JNull ;;
      output "message" start_message ;;
      game_dir_raw <- getitem arg "game_dir" ;;
      game_dir <- Path_new game_dir_raw ;;
      datapack_dirs <- datapack_dirs_of arg game_dir ;;
      let resourcepack_dirs := [joinpath game_dir "resourcepacks"] in
      for_ datapack_dirs weld_dir ;;
      for_ resourcepack_dirs weld_dir ;;
      output "message" success_message ;;
      output "end_process" JNull.

Definition set_result_payload : json :=
  JObj [("main_class_override", JNull);
        ("jar_path_override", JNull);
        ("classpath_extension", JArr [])].

(** The last statement of the module: [output("set_result", json.dumps(...))].
    The data handed to [output] is the string [json.dumps] makes of the fixed
    object. *)
Definition report_result : M unit :=
  output "set_result" (JStr (json_dumps set_result_payload)).

(** The module body once the merge engine is importable: [run()], then the
    report of the result. *)
Definition main (argv : list string) : M unit :=
  run argv ;;
  report_result.

End Plugin.

(** ** The merge engine of the specification *)

(** The merge capability as the specification has it: a function from the
    packs, the output configuration and the working directory to the merged
    pack, which reads the file system and may raise. *)
Abbreviation Merge :=
  (list Path -> list (string * string) -> Path -> gmap Path node -> result string).

(** A save that does what its arguments say: the merged pack is written at
    [path], over whatever was there, and nothing else happens. *)
Definition data_save (data : string) (path : Path) : Lib unit :=
  fun f => (Ok tt, <[path := File data]> f, []).

(** The engine that does nothing but merge: entering it changes nothing and
    prints nothing, [ctx.data] is the merged pack and is saved by
    [data_save], and leaving it does nothing. *)
Definition quiet (merge : Merge) : RunWeld :=
  fun packs config directory f =>
    (match merge packs config directory f with
     | Ok data =>
         Ok (mkEntered (data_save data) (fun _ f' => (Ok false, f', [])))
     | Raise e => Raise e
     end, f, []).

(** ** Reading the protocol *)

(** The characters of [s] before its first double quote. *)
Fixpoint until_quote (s : string) : string :=
  match s with
  | EmptyString => ""
  | String c rest =>
      if Ascii.eqb c "034" then "" else String c (until_quote rest)
  end.

(** [strip pre s] is what follows [pre] in [s]. *)
Fixpoint strip (pre s : string) : option string :=
  match pre, s with
  | EmptyString, _ => Some s
  | String a pre', String b s' => if Ascii.eqb a b then strip pre' s' else None
  | String _ _, EmptyString => None
  end.

(** The method of a protocol line, as the host reads it: after the
    sentinel, either the bare method name as a JSON string or an object
    with the method as its only key. *)
Definition event_method (line : string) : option string :=
  match strip "%_" line with
  | None => None
  | Some body =>
      match strip dq body, strip ("{" +:+ dq) body with
      | Some rest, _ => Some (until_quote rest)
      | None, Some rest => Some (until_quote rest)
      | None, None => None
      end
  end.

Definition is_set_result (line : string) : bool :=
  bool_decide (event_method line = Some "set_result").

(** The number of [set_result] events among some lines. *)
Definition count_set_result (lines : list string) : nat :=
  length (filter (fun l => Is_true (is_set_result l)) lines).

(** The line [report_result] prints. *)
Definition set_result_line : string :=
  "%_{" +:+ dq +:+ "set_result" +:+ dq +:+ ": "
  +:+ dq +:+ "{"
  +:+ bs +:+ dq +:+ "main_class_override" +:+ bs +:+ dq +:+ ": null, "
  +:+ bs +:+ dq +:+ "jar_path_override" +:+ bs +:+ dq +:+ ": null, "
  +:+ bs +:+ dq +:+ "classpath_extension" +:+ bs +:+ dq +:+ ": []"
  +:+ "}" +:+ dq +:+ "}".

(** The line a JSON object payload would give on the wire: [set_result]
    carrying the object itself. *)
Definition set_result_line_as_object : string :=
  "%_" +:+ json_dumps (JObj [("set_result", set_result_payload)]).

(** Non-loss in the words of the specification: every regular file loose
    in the content directory, the merged pack [weld_pack.zip] apart, is in
    the holding directory with its content after the pass, and is no longer
    loose. *)
Definition non_loss_as_stated (run_weld : RunWeld) (dir : Path) (w : World)
    : Prop :=
  forall name data,
    name ≠ "weld_pack.zip" ->
    fs w !! (dir ++ [name]) = Some (File data) ->
    let w' := snd (weld_dir run_weld dir w) in
    fs w' !! (dir ++ ["unwelded"; name]) = Some (File data)
    /\ fs w' !! (dir ++ [name]) = None.

(** Failure atomicity in the words of the specification: when the pass
    raises out of the merge engine, the quarantine having returned, what
    lies at the path of the merged pack is what lay there before the
    pass. *)
Definition failure_atomic_as_stated (run_weld : RunWeld) (dir : Path)
    (w : World) : Prop :=
  forall wq e w',
    weld_dir_quarantine dir w = (Ok tt, wq) ->
    weld_dir run_weld dir w = (Raise e, w') ->
    fs w' !! (dir ++ ["weld_pack.zip"]) = fs w !! (dir ++ ["weld_pack.zip"]).

(** ** Sample data *)

(** A merge engine that succeeds: the merged pack names the packs it got. *)
Definition weld_names (packs : list Path) (config : list (string * string))
    (directory : Path) (f : gmap Path node) : result string :=
  Ok ("merged:" +:+ str_join "," (map Path_str packs)).

(** A merge engine that fails. *)
Definition weld_broken (packs : list Path) (config : list (string * string))
    (directory : Path) (f : gmap Path node) : result string :=
  Raise (Exception "weld failed").

(** What lies at a pack path, as a merge engine that opens its packs
    sees it. *)
Definition pack_text (f : gmap Path node) (p : Path) : string :=
  match f !! p with
  | Some (File data) => "[" +:+ data +:+ "]"
  | Some Dir => "<dir>"
  | None => "<none>"
  end.

(** A merge engine that reads the packs it is handed and nothing else: the
    merged pack is made of what lies at the pack paths, in their order. *)
Definition weld_cat (packs : list Path) (config : list (string * string))
    (directory : Path) (f : gmap Path node) : result string :=
  Ok ("merged:" +:+ str_join "" (map (pack_text f) packs)).

(** A merge engine that keeps a cache in its working directory: it makes
    the directory [.beet_cache] when it is entered. *)
Definition with_cache (merge : Merge) : RunWeld :=
  fun packs config directory f =>
    let f1 := <[directory ++ [".beet_cache"] := Dir]> f in
    (match merge packs config directory f with
     | Ok data =>
         Ok (mkEntered (data_save data) (fun _ f' => (Ok false, f', [])))
     | Raise e => Raise e
     end, f1, ["building the cache"]).

(** A merge engine that merges and lets the pack be saved, and fails when
    it is left. *)
Definition weld_exit_broken : RunWeld :=
  fun packs config directory f =>
    (Ok (mkEntered (data_save ("merged:" +:+ str_join "," (map Path_str packs)))
                   (fun _ f' => (Raise (Exception "exit failed"), f', []))),
     f, []).

(** A [json.loads] that knows the documents of [table] by their text and
    rejects everything else. *)
Definition loads_table (table : list json) (s : string) : result json :=
  match List.find (fun v => String.eqb (json_dumps v) s) table with
  | Some v => Ok v
  | None => Raise JSONDecodeError
  end.

(** The context the host sends with a hook. *)
Definition context (update_depth side : string) (datapack_folder : json) : json :=
  JObj [("update_depth", JStr update_depth);
        ("game_dir", JStr "/inst");
        ("side", JStr side);
        ("config", JObj [("datapack_folder", datapack_folder)])].

Definition sample_contexts : list json :=
  [context "full" "client" JNull; context "shallow" "client" JNull;
   context "full" "server" JNull].

Definition packs_dir : Path := ["/"; "inst"; "resourcepacks"].

(** An instance with two loose packs, one of them with the reserved pattern
    in its name, and a subdirectory. *)
Definition sample_fs : gmap Path node :=
  list_to_map
    [(["/"], Dir); (["/"; "inst"], Dir); (packs_dir, Dir);
     (packs_dir ++ ["a.zip"], File "A");
     (packs_dir ++ ["my_weld_pack_backup.zip"], File "B");
     (packs_dir ++ ["sub"], Dir)].

(** An instance of a client with the saves [A] and [B]. *)
Definition saves_fs : gmap Path node :=
  list_to_map
    [(["/"], Dir); (["/"; "inst"], Dir); (packs_dir, Dir);
     (["/"; "inst"; "saves"], Dir);
     (["/"; "inst"; "saves"; "A"], Dir);
     (["/"; "inst"; "saves"; "B"], Dir)].

Definition world_of (f : gmap Path node) : World := mkWorld f [] [].

(** The sample directory after an earlier pass, with a new loose pack. *)
Definition second_pass_fs : gmap Path node :=
  list_to_map
    [(["/"], Dir); (["/"; "inst"], Dir); (packs_dir, Dir);
     (packs_dir ++ ["unwelded"], Dir);
     (packs_dir ++ ["unwelded"; "a.zip"], File "A");
     (packs_dir ++ ["weld_pack.zip"], File "merged:/inst/resourcepacks/a.zip");
     (packs_dir ++ ["b.zip"], File "B")].


(** A regular file in the place of the holding directory. *)
Definition blocked_fs : gmap Path node :=
  list_to_map
    [(["/"], Dir); (["/"; "inst"], Dir); (packs_dir, Dir);
     (packs_dir ++ ["unwelded"], File "not a directory");
     (packs_dir ++ ["a.zip"], File "A")].

(** A directory in the holding directory under the name of a loose pack. *)
Definition collision_fs : gmap Path node :=
  list_to_map
    [(["/"], Dir); (["/"; "inst"], Dir); (packs_dir, Dir);
     (packs_dir ++ ["unwelded"], Dir);
     (packs_dir ++ ["unwelded"; "a.zip"], Dir);
     (packs_dir ++ ["a.zip"], File "A")].

(** A client that has no save yet. *)
Definition no_save_fs : gmap Path node :=
  list_to_map
    [(["/"], Dir); (["/"; "inst"], Dir); (packs_dir, Dir);
     (["/"; "inst"; "saves"], Dir)].

(** A server with its world. *)
Definition server_fs : gmap Path node :=
  list_to_map
    [(["/"], Dir); (["/"; "inst"], Dir); (packs_dir, Dir);
     (["/"; "inst"; "world"], Dir);
     (["/"; "inst"; "world"; "datapacks"], Dir);
     (["/"; "inst"; "world"; "datapacks"; "d.zip"], File "D");
     (packs_dir ++ ["a.zip"], File "A")].

(** [str.upper] on ASCII strings. *)
Definition ascii_upper_char (c : ascii) : ascii :=
  let n := N_of_ascii c in
  if (97 <=? n)%N && (n <=? 122)%N then ascii_of_N (n - 32) else c.

Fixpoint ascii_upper (s : string) : string :=
  match s with
  | EmptyString => ""
  | String c rest => String (ascii_upper_char c) (ascii_upper rest)
  end.

(** A manifest with the given version ids. *)
Definition manifest_of (ids : list string) : json :=
  JObj [("latest", JObj []);
        ("versions", JArr (map (fun id => JObj [("id", JStr id);
                                                ("type", JStr "release")])
                               ids))].

(** ** Relations between the world before and after a computation *)

(** [c] takes every world to one related to it by [R], whether it returns
    or raises. *)
Definition preserves {A} (R : relation World) (c : M A) : Prop :=
  forall w, R w (snd (c w)).

(** What is at [p] is the same. *)
Definition same_at (p : Path) : relation World :=
  fun w w' => fs w' !! p = fs w !! p.

(** A regular file at [p] was there before, with the same content. *)
Definition no_new_file (p : Path) : relation World :=
  fun w w' => forall data, fs w' !! p = Some (File data) -> fs w !! p = Some (File data).

(** A directory at [p] is still a directory. *)
Definition keeps_dir (p : Path) : relation World :=
  fun w w' => fs w !! p = Some Dir -> fs w' !! p = Some Dir.

(** Nothing was printed. *)
Definition same_stdout : relation World :=
  fun w w' => stdout w' = stdout w.

(** Only the file system may differ. *)
Definition fs_only : relation World :=
  fun w w' => stdout w' = stdout w /\ weld_calls w' = weld_calls w.

(** What was printed is kept, and no line printed since is a [set_result]
    event. *)
Definition no_result_yet : relation World :=
  fun w w' =>
    exists lines, stdout w' = stdout w ++ lines /\ count_set_result lines = 0.

(** A call of the merge engine as [weld_dir] makes it on [dir] when the
    file system is [f]: [dir] is the working directory and the output, and
    the packs are the names of the holding directory, each once and each
    joined onto [dir].  The order of the packs is the order in which the
    holding directory is listed; it is left open. *)
Definition is_weld_call (dir : Path) (f : gmap Path node) (call : WeldCall)
    : Prop :=
  call_directory call = dir
  /\ call_config call = [("output", Path_str dir)]
  /\ call_packs call
     ≡ₚ map (fun x => joinpath dir x) (children f (dir ++ ["unwelded"])).

(** The call in the order of the model's listing. *)
Definition listed_call (dir : Path) (f : gmap Path node) : WeldCall :=
  mkWeldCall (map (fun x => joinpath dir x) (children f (dir ++ ["unwelded"])))
             [("output", Path_str dir)] dir.

(** ** The generator of the version table ([tools/version_enum.py])

    The script downloads the version manifest, reads it back, and writes a
    C++ header with one enumerator per version and two maps between the
    enumerators and the version ids.  The embedding starts from the parsed
    manifest and ends with the text written to [versions.hh]; the header is
    opened only once that text is complete. *)

Definition tab : string := String "009"%char EmptyString.
Definition nl : string := String "010"%char EmptyString.

(** What the script can raise on a parsed manifest. *)
Inductive script_exn : Type :=
| ScriptKeyError
| ScriptTypeError
| AssertionError.

(** [v[key]] for a string [key], in the script. *)
Definition script_getitem (v : json) (key : string) : script_exn + json :=
  match v with
  | JObj fields =>
      match dict_get key fields with
      | Some x => inr x
      | None => inl ScriptKeyError
      end
  | _ => inl ScriptTypeError
  end.

(** The characters of a string, as Python iterates over it. *)
Fixpoint chars (s : string) : list json :=
  match s with
  | EmptyString => []
  | String c rest => JStr (String c "") :: chars rest
  end.

(** [for version in v]: the items of a list, the keys of a [dict], the
    characters of a string; nothing else can be iterated. *)
Definition script_iter (v : json) : script_exn + list json :=
  match v with
  | JArr items => inr items
  | JObj fields => inr (map (fun kv => JStr (fst kv)) fields)
  | JStr s => inr (chars s)
  | _ => inl ScriptTypeError
  end.

(** [re.sub("(\.|-| )", "_", id)]: every dot, hyphen and space becomes an
    underscore. *)
Fixpoint sub_separators (s : string) : string :=
  match s with
  | EmptyString => ""
  | String c rest =>
      String (if Ascii.eqb c "." || Ascii.eqb c "-" || Ascii.eqb c " "
              then "_"%char else c)
             (sub_separators rest)
  end.

(** [x in l] on a list of strings. *)
Definition str_in (x : string) (l : list string) : bool :=
  existsb (String.eqb x) l.

(** One entry of each map. *)
Definition forward_entry (name raw : string) : string :=
  "{" +:+ dq +:+ raw +:+ dq +:+ ", MinecraftVersion::" +:+ name +:+ "}".

Definition reverse_entry (name raw : string) : string :=
  "{" +:+ "MinecraftVersion::" +:+ name +:+ ", " +:+ dq +:+ raw +:+ dq +:+ "}".

(** The text of the header for the names and ids, already in the order
    they are written in. *)
Definition header_text (version_names version_names_raw : list string) : string :=
  let sep := "," +:+ nl +:+ tab +:+ tab in
  let names_enum :=
    tab +:+ "enum class MinecraftVersion {" +:+ nl +:+ tab +:+ tab
    +:+ str_join sep version_names +:+ nl +:+ tab +:+ "};" in
  let forward_map_values :=
    map (fun nr => forward_entry (fst nr) (snd nr))
        (zip version_names version_names_raw) in
  let forward_map :=
    tab +:+ "static std::map<std::string, MinecraftVersion> "
    +:+ "mc_version_forward_map = {" +:+ nl +:+ tab +:+ tab
    +:+ str_join sep forward_map_values +:+ nl +:+ tab +:+ "};" in
  let reverse_map_values :=
    map (fun nr => reverse_entry (fst nr) (snd nr))
        (zip version_names version_names_raw) in
  let reverse_map :=
    tab +:+ "static std::map<MinecraftVersion, std::string> "
    +:+ "mc_version_reverse_map = {" +:+ nl +:+ tab +:+ tab
    +:+ str_join sep reverse_map_values +:+ nl +:+ tab +:+ "};" in
  "#pragma once" +:+ nl
  +:+ "#include <map>" +:+ nl
  +:+ "#include <string>" +:+ nl
  +:+ nl
  +:+ "namespace mcvm {" +:+ nl
  +:+ names_enum
  +:+ nl +:+ nl
  +:+ forward_map
  +:+ nl +:+ nl
  +:+ reverse_map
  +:+ nl +:+ "};" +:+ nl.

Section VersionEnum.

(** [str.upper] and, for what is not a string, [str]. *)
Variable str_upper : string -> string.
Variable py_repr : json -> string.

(** [str(v)]. *)
Definition py_str (v : json) : string :=
  match v with
  | JStr s => s
  | _ => py_repr v
  end.

(** The name of the enumerator for a version id: upper case, separators
    replaced, and a prefix since a name cannot start with a digit. *)
Definition enum_name (id : string) : string :=
  "V_" +:+ sub_separators (str_upper id).

(** The loop over the versions, with the two lists it grows. *)
Fixpoint collect_names (versions : list json)
    (version_names version_names_raw : list string)
    : script_exn + (list string * list string) :=
  match versions with
  | [] => inr (version_names, version_names_raw)
  | version :: rest =>
      match script_getitem version "id" with
      | inl e => inl e
      | inr v =>
          let id := py_str v in
          let version_names_raw := version_names_raw ++ [id] in
          let id := enum_name id in
          if str_in id version_names then inl AssertionError
          else collect_names rest (version_names ++ [id]) version_names_raw
      end
  end.

(** The version [version] of the manifest has the id [id]. *)
Definition has_id (version : json) (id : string) : Prop :=
  exists v, script_getitem version "id" = inr v /\ id = py_str v.

(** The script from the parsed manifest to the text of [versions.hh]. *)
Definition version_enum (man : json) : script_exn + string :=
  match script_getitem man "versions" with
  | inl e => inl e
  | inr versions =>
      match script_iter versions with
      | inl e => inl e
      | inr items =>
          match collect_names items [] [] with
          | inl e => inl e
          | inr (version_names, version_names_raw) =>
              inr (header_text (reverse version_names)
                               (reverse version_names_raw))
          end
      end
  end.

End VersionEnum.

(** [c] raises nothing but exceptions in [P]. *)
Definition raises_only {A} (P : exn -> Prop) (c : M A) : Prop :=
  forall w e w', c w = (Raise e, w') -> P e.

(** While no regular file lies at [loose], none appears there and what
    is at [held] stays. *)
Definition kept_while_not_loose (loose held : Path) : relation World :=
  fun w w' =>
    (forall data, fs w !! loose ≠ Some (File data)) ->
    (forall data, fs w' !! loose ≠ Some (File data))
    /\ fs w' !! held = fs w !! held.

(** The lines of the hook handler: the two it prints before the merges
    and the two it prints after them. *)
Definition started_lines : list string :=
  ["%_" +:+ dq +:+ "start_process" +:+ dq;
   "%_" +:+ json_dumps (JObj [("message", start_message)])].

Definition finished_lines : list string :=
  ["%_" +:+ json_dumps (JObj [("message", success_message)]);
   "%_" +:+ dq +:+ "end_process" +:+ dq].

(** The world once the hook handler has printed its first two lines. *)
Definition started (w : World) : World :=
  mkWorld (fs w) (stdout w ++ started_lines) (weld_calls w).

(** A character that [json.dumps] leaves as it is: printable ASCII other
    than the double quote and the backslash. *)
Definition plain_char (c : ascii) : bool :=
  let n := N_of_ascii c in
  (32 <=? n)%N && (n <=? 126)%N && negb (n =? 34)%N && negb (n =? 92)%N.

Fixpoint plain (s : string) : bool :=
  match s with
  | EmptyString => true
  | String c rest => plain_char c && plain rest
  end.

(** * Properties *)

(** ** Paths and listings *)

Lemma under_app (p rest : Path) : under p (p ++ rest) = Some rest.
Proof.
  induction p as [|a p IH]; simpl; [done|].
  by rewrite String.eqb_refl.
Qed.

Lemma under_Some (p k rest : Path) : under p k = Some rest -> k = p ++ rest.
Proof.
  revert k. induction p as [|a p IH]; intros [|b k]; simpl; try congruence.
  destruct (String.eqb a b) eqn:E; [|done].
  apply String.eqb_eq in E as ->. intros H. by rewrite (IH _ H).
Qed.

Lemma entry_name_Some (p k : Path) (name : string) :
  entry_name p k = Some name <-> k = p ++ [name].
Proof.
  unfold entry_name. split.
  - destruct (under p k) as [[|n [|]]|] eqn:E; try done.
    intros [= ->]. by apply under_Some.
  - intros ->. by rewrite under_app.
Qed.

Lemma parent_joinpath (p : Path) (name : string) : parent (joinpath p name) = p.
Proof. apply removelast_last. Qed.

Lemma joinpath_inj (p : Path) (a b : string) : joinpath p a = joinpath p b -> a = b.
Proof. unfold joinpath. intros H. apply app_inv_head in H. congruence. Qed.

(** A path differs from every path strictly below it. *)
Lemma path_ne_below (p : Path) (a : string) (rest : Path) : p ≠ p ++ a :: rest.
Proof.
  intros H. apply (f_equal length) in H. rewrite length_app in H. simpl in H. lia.
Qed.

Lemma entry_ne_deeper (p : Path) (a b c : string) : p ++ [a] ≠ p ++ [b; c].
Proof. intros H. apply app_inv_head in H. discriminate. Qed.

Lemma elem_of_children (f : gmap Path node) (p : Path) (name : string) :
  name ∈ children f p <-> is_Some (f !! (p ++ [name])).
Proof.
  unfold children. rewrite merge_sort_Permutation, list_elem_of_omap. split.
  - intros ([k v] & Hin & Hn). apply elem_of_map_to_list in Hin.
    apply entry_name_Some in Hn. simpl in Hn. subst k. eauto.
  - intros [v Hv]. exists (p ++ [name], v). split.
    + by apply elem_of_map_to_list.
    + by apply entry_name_Some.
Qed.

Lemma NoDup_entry_names (p : Path) (l : list (Path * node)) :
  NoDup (fst <$> l) -> NoDup (omap (fun kv => entry_name p (fst kv)) l).
Proof.
  induction l as [|[k v] l IH]; simpl; [constructor|].
  intros [Hk Hl]%NoDup_cons. specialize (IH Hl).
  destruct (entry_name p k) as [name|] eqn:E; [|done].
  constructor; [|done].
  intros ([k' v'] & Hin & Hn)%list_elem_of_omap. simpl in Hn.
  apply entry_name_Some in E, Hn. subst k k'.
  apply Hk, list_elem_of_fmap. by exists (p ++ [name], v').
Qed.

Lemma NoDup_children (f : gmap Path node) (p : Path) : NoDup (children f p).
Proof.
  unfold children. rewrite merge_sort_Permutation.
  apply NoDup_entry_names, NoDup_fst_map_to_list.
Qed.

(** A listing is determined by the names present. *)
Lemma children_ext (f f' : gmap Path node) (p : Path) :
  (forall name, is_Some (f !! (p ++ [name])) <-> is_Some (f' !! (p ++ [name]))) ->
  children f p = children f' p.
Proof.
  intros H. apply (Sorted_unique String.le).
  - apply Sorted_merge_sort; apply _.
  - apply Sorted_merge_sort; apply _.
  - apply NoDup_Permutation; [apply NoDup_children..|].
    intros name. by rewrite !elem_of_children.
Qed.

(** ** The monad *)

#[global] Instance same_at_preorder (p : Path) : PreOrder (same_at p).
Proof. split; repeat intro; unfold same_at in *; congruence. Qed.

#[global] Instance no_new_file_preorder (p : Path) : PreOrder (no_new_file p).
Proof. split; repeat intro; unfold no_new_file in *; eauto. Qed.

#[global] Instance keeps_dir_preorder (p : Path) : PreOrder (keeps_dir p).
Proof. split; repeat intro; unfold keeps_dir in *; eauto. Qed.

#[global] Instance same_stdout_preorder : PreOrder same_stdout.
Proof. split; repeat intro; unfold same_stdout in *; congruence. Qed.

#[global] Instance fs_only_preorder : PreOrder fs_only.
Proof.
  split; [by intros w|]. intros x y z [] []. split; congruence.
Qed.

Lemma count_set_result_app (l1 l2 : list string) :
  count_set_result (l1 ++ l2) = count_set_result l1 + count_set_result l2.
Proof. unfold count_set_result. by rewrite filter_app, length_app. Qed.

#[global] Instance no_result_yet_preorder : PreOrder no_result_yet.
Proof.
  split.
  - intros w. exists []. by rewrite app_nil_r.
  - intros x y z (l1 & E1 & C1) (l2 & E2 & C2). exists (l1 ++ l2).
    rewrite E2, E1, <- app_assoc, count_set_result_app, C1, C2. done.
Qed.

Section Combinators.
Context (R : relation World) `{!PreOrder R}.

Lemma preserves_ret {A} (a : A) : preserves R (ret a).
Proof. intros w. simpl. reflexivity. Qed.

Lemma preserves_raise {A} (e : exn) : preserves R (raise (A:=A) e).
Proof. intros w. simpl. reflexivity. Qed.

(** A computation that leaves the world as it is. *)
Lemma preserves_pure {A} (c : M A) : (forall w, snd (c w) = w) -> preserves R c.
Proof. intros H w. rewrite H. reflexivity. Qed.

Lemma preserves_bind {A B} (c : M A) (k : A -> M B) :
  preserves R c -> (forall a, preserves R (k a)) -> preserves R (bind c k).
Proof.
  intros Hc Hk w. unfold bind. specialize (Hc w).
  destruct (c w) as [[a|e] w1]; simpl in *; [|done].
  etrans; [exact Hc|apply Hk].
Qed.

Lemma preserves_for_ {A} (l : list A) (body : A -> M unit) :
  (forall x, x ∈ l -> preserves R (body x)) -> preserves R (for_ l body).
Proof.
  induction l as [|x l IH]; intros H; simpl.
  - apply preserves_ret.
  - apply preserves_bind; [apply H; left|].
    intros _. apply IH. intros y Hy. apply H. by right.
Qed.

Lemma preserves_for_acc {A S} (l : list A) (body : A -> S -> M S) (acc : S) :
  (forall x s, preserves R (body x s)) -> preserves R (for_acc l body acc).
Proof.
  intros H. revert acc. induction l as [|x l IH]; intros acc; simpl.
  - apply preserves_ret.
  - apply preserves_bind; [apply H|]. intros s. apply IH.
Qed.

Lemma preserves_if {A} (b : bool) (c1 c2 : M A) :
  preserves R c1 -> preserves R c2 -> preserves R (if b then c1 else c2).
Proof. by destruct b. Qed.
End Combinators.

Lemma bind_Ok {A B} (c : M A) (k : A -> M B) (w : World) (a : A) (w1 : World) :
  c w = (Ok a, w1) -> bind c k w = k a w1.
Proof. intros H. unfold bind. by rewrite H. Qed.

Lemma bind_Raise {A B} (c : M A) (k : A -> M B) (w : World) (e : exn)
    (w1 : World) :
  c w = (Raise e, w1) -> bind c k w = (Raise e, w1).
Proof. intros H. unfold bind. by rewrite H. Qed.

Lemma for_cons {A} (x : A) (l : list A) (body : A -> M unit) (w : World) :
  for_ (x :: l) body w =
  match body x w with
  | (Ok _, w') => for_ l body w'
  | (Raise e, w') => (Raise e, w')
  end.
Proof. reflexivity. Qed.

(** Reading the file system changes nothing. *)
Lemma Path_exists_pure (p : Path) (w : World) : snd (Path_exists p w) = w.
Proof. done. Qed.

Lemma Path_is_file_pure (p : Path) (w : World) : snd (Path_is_file p w) = w.
Proof. done. Qed.

Lemma os_listdir_pure (p : Path) (w : World) : snd (os_listdir p w) = w.
Proof. unfold os_listdir. by repeat case_match. Qed.

Lemma os_walk_dirnames_pure (p : Path) (w : World) : snd (os_walk_dirnames p w) = w.
Proof. unfold os_walk_dirnames. by repeat case_match. Qed.

Lemma sys_argv_pure (argv : list string) (i : nat) (w : World) :
  snd (sys_argv argv i w) = w.
Proof. unfold sys_argv. by case_match. Qed.

Lemma getitem_pure (v : json) (key : string) (w : World) : snd (getitem v key w) = w.
Proof. unfold getitem. by repeat case_match. Qed.

Lemma Path_new_pure (v : json) (w : World) : snd (Path_new v w) = w.
Proof. unfold Path_new. by case_match. Qed.

Lemma joinpath_value_pure (p : Path) (v : json) (w : World) :
  snd (joinpath_value p v w) = w.
Proof. unfold joinpath_value. by case_match. Qed.

Lemma str_first_pure (s : string) (w : World) : snd (str_first s w) = w.
Proof. unfold str_first. by case_match. Qed.

(** Steps of a proof that a computation preserves a relation. *)
Ltac step_bind := apply preserves_bind; [apply _| |intros ?].
Ltac step_pure :=
  apply preserves_pure;
  [apply _
  |intros ?;
   first [done | apply os_listdir_pure | apply os_walk_dirnames_pure
         | apply sys_argv_pure | apply getitem_pure | apply Path_new_pure
         | apply joinpath_value_pure | apply str_first_pure]].
Ltac step_pure_with lem := apply preserves_pure; [apply _|intros ?; apply lem].
Ltac step_if := apply preserves_if.

(** ** The quarantine loop *)

Lemma holding_path (dir : Path) (entry : string) :
  joinpath (joinpath dir "unwelded") entry = dir ++ ["unwelded"; entry].
Proof. unfold joinpath. by rewrite <- app_assoc. Qed.

Lemma parent_holding_path (dir : Path) (entry : string) :
  parent (dir ++ ["unwelded"; entry]) = dir ++ ["unwelded"].
Proof.
  change (dir ++ ["unwelded"; entry]) with (dir ++ ["unwelded"] ++ [entry]).
  rewrite app_assoc. apply removelast_last.
Qed.

(** Everything one turn of the loop can do. *)
Lemma quarantine_entry_cases (dir : Path) (entry : string) (w : World) :
  let src := dir ++ [entry] in
  let tgt := dir ++ ["unwelded"; entry] in
  let r := quarantine_entry dir (joinpath dir "unwelded") entry w in
  fs_only w (snd r) /\
  ((fst r = Ok tt /\ fs (snd r) = fs w /\
    (contains "weld_pack" entry = true \/
     forall data, fs w !! src ≠ Some (File data)))
   \/
   (contains "weld_pack" entry = false /\
    exists data, fs w !! src = Some (File data) /\
      ((fst r = Raise OSError /\
        ((fs w !! tgt = Some Dir /\ fs (snd r) = fs w) \/
         (fs w !! (dir ++ ["unwelded"]) ≠ Some Dir /\
          fs (snd r) = delete tgt (fs w))))
       \/
       (fst r = Ok tt /\
        fs w !! (dir ++ ["unwelded"]) = Some Dir /\
        fs (snd r) = <[tgt := File data]> (delete src (delete tgt (fs w))))))).
Proof.
  intros src tgt r. subst r. unfold quarantine_entry.
  rewrite holding_path. change (joinpath dir entry) with src. fold tgt.
  destruct (contains "weld_pack" entry) eqn:Hc.
  { simpl. split; [reflexivity|]. left. auto. }
  unfold bind, Path_is_file, Path_exists, os_remove, os_rename, ret. simpl.
  destruct (fs w !! src) as [[data|]|] eqn:Hsrc; simpl.
  2,3: split; [reflexivity|]; left; split_and!; [done..|right; congruence].
  assert (src ≠ tgt) as Hne by apply entry_ne_deeper.
  assert (tgt ≠ dir ++ ["unwelded"]) as Hne'.
  { intros H. apply app_inv_head in H. discriminate. }
  assert (parent tgt = dir ++ ["unwelded"]) as Hp by apply parent_holding_path.
  rewrite !Hp.
  destruct (fs w !! tgt) as [[tdata|]|] eqn:Htgt.
  - rewrite bool_decide_eq_true_2 by eauto. rewrite Htgt. simpl.
    rewrite lookup_delete_ne, Hsrc, lookup_delete_eq, lookup_delete_ne by done.
    split; [by repeat case_match|].
    right. split; [done|]. exists data. split; [done|].
    destruct (fs w !! (dir ++ ["unwelded"])) as [[|]|]; simpl; auto 10.
  - rewrite bool_decide_eq_true_2 by eauto. rewrite Htgt. simpl.
    split; [reflexivity|]. right. split; [done|]. exists data. auto 10.
  - rewrite bool_decide_eq_false_2 by (by intros [? ?]). simpl.
    rewrite Hsrc, Htgt. rewrite (delete_id _ tgt) by done.
    split; [by repeat case_match|].
    right. split; [done|]. exists data. split; [done|].
    destruct (fs w !! (dir ++ ["unwelded"])) as [[|]|]; simpl; auto 10.
Qed.

Lemma quarantine_entry_fs_only (dir : Path) (entry : string) :
  preserves fs_only (quarantine_entry dir (joinpath dir "unwelded") entry).
Proof. intros w. apply quarantine_entry_cases. Qed.

(** A turn touches the entry and its place in the holding directory only,
    and nothing when the name has the reserved pattern. *)
Lemma quarantine_entry_same_at (dir p : Path) (entry : string) :
  contains "weld_pack" entry = true
  \/ (p ≠ dir ++ [entry] /\ p ≠ dir ++ ["unwelded"; entry]) ->
  preserves (same_at p) (quarantine_entry dir (joinpath dir "unwelded") entry).
Proof.
  intros H w. unfold same_at.
  destruct (quarantine_entry_cases dir entry w)
    as [_ [(_ & -> & _)|(Hc & data & _ & [(_ & [[_ ->]|[_ ->]])|(_ & _ & ->)])]];
    try done; destruct H as [H|[H1 H2]]; try congruence.
  - by rewrite lookup_delete_ne.
  - by rewrite lookup_insert_ne, !lookup_delete_ne.
Qed.

(** A turn leaves no new regular file among the entries of [dir]. *)
Lemma quarantine_entry_no_new_file (dir : Path) (name entry : string) :
  preserves (no_new_file (dir ++ [name]))
            (quarantine_entry dir (joinpath dir "unwelded") entry).
Proof.
  intros w data. pose proof (entry_ne_deeper dir name "unwelded" entry) as Hne.
  destruct (quarantine_entry_cases dir entry w)
    as [_ [(_ & -> & _)|(Hc & d & _ & [(_ & [[_ ->]|[_ ->]])|(_ & _ & ->)])]];
    try done.
  - rewrite lookup_delete_ne by done. done.
  - rewrite lookup_insert_ne by done.
    intros H. apply lookup_delete_Some in H as [_ H].
    by rewrite lookup_delete_ne in H.
Qed.

(** After a turn that returns, the entry is no loose regular file, unless
    its name has the reserved pattern. *)
Lemma quarantine_entry_Ok_not_file (dir : Path) (entry : string) (w w' : World) :
  quarantine_entry dir (joinpath dir "unwelded") entry w = (Ok tt, w') ->
  contains "weld_pack" entry = false ->
  forall data, fs w' !! (dir ++ [entry]) ≠ Some (File data).
Proof.
  intros E Hc data.
  pose proof (entry_ne_deeper dir entry "unwelded" entry) as Hne.
  destruct (quarantine_entry_cases dir entry w) as [_ H]. rewrite E in H.
  simpl in H.
  destruct H as [(_ & -> & [?|H])|(_ & d & _ & [(? & _)|(_ & _ & ->)])];
    try congruence.
  rewrite lookup_insert_ne, lookup_delete_eq by done. done.
Qed.

(** The turn that moves a file: when the holding directory is there and
    holds no directory of that name. *)
Lemma quarantine_entry_moves (dir : Path) (entry data : string) (w : World) :
  fs w !! (dir ++ ["unwelded"]) = Some Dir ->
  contains "weld_pack" entry = false ->
  fs w !! (dir ++ [entry]) = Some (File data) ->
  fs w !! (dir ++ ["unwelded"; entry]) ≠ Some Dir ->
  exists w',
    quarantine_entry dir (joinpath dir "unwelded") entry w = (Ok tt, w')
    /\ fs_only w w'
    /\ fs w' = <[dir ++ ["unwelded"; entry] := File data]>
                 (delete (dir ++ [entry])
                         (delete (dir ++ ["unwelded"; entry]) (fs w))).
Proof.
  intros Hunw Hc Hsrc Htgt.
  destruct (quarantine_entry_cases dir entry w) as [Hfs H].
  destruct (quarantine_entry dir (joinpath dir "unwelded") entry w) as [r w'].
  simpl in *. exists w'.
  destruct H as [(_ & _ & [?|H])|(_ & d & Hd & [(_ & [[? _]|[? _]])|(-> & _ & ->)])];
    try congruence.
  rewrite Hsrc in Hd. injection Hd as <-. done.
Qed.

(** A turn that has nothing to move. *)
Lemma quarantine_entry_skip (dir : Path) (entry : string) (w : World) :
  (contains "weld_pack" entry = true
   \/ forall data, fs w !! (dir ++ [entry]) ≠ Some (File data)) ->
  quarantine_entry dir (joinpath dir "unwelded") entry w = (Ok tt, w).
Proof.
  intros H. unfold quarantine_entry.
  destruct (contains "weld_pack" entry); [done|].
  destruct H as [?|H]; [done|].
  unfold bind, Path_is_file. change (joinpath dir entry) with (dir ++ [entry]).
  destruct (fs w !! (dir ++ [entry])) as [[data|]|]; [|done..].
  by destruct (H data).
Qed.

(** One turn under the conditions that let it return. *)
Lemma quarantine_entry_turn (dir : Path) (entry : string) (w : World) :
  fs w !! (dir ++ ["unwelded"]) = Some Dir ->
  (contains "weld_pack" entry = false ->
   forall data, fs w !! (dir ++ [entry]) = Some (File data) ->
                fs w !! (dir ++ ["unwelded"; entry]) ≠ Some Dir) ->
  exists w',
    quarantine_entry dir (joinpath dir "unwelded") entry w = (Ok tt, w')
    /\ fs_only w w'
    /\ (forall p, p ≠ dir ++ [entry] -> p ≠ dir ++ ["unwelded"; entry] ->
                  fs w' !! p = fs w !! p)
    /\ (contains "weld_pack" entry = false ->
        forall data, fs w !! (dir ++ [entry]) = Some (File data) ->
                     fs w' !! (dir ++ ["unwelded"; entry]) = Some (File data)
                     /\ fs w' !! (dir ++ [entry]) = None).
Proof.
  intros Hunw Hfree.
  destruct (contains "weld_pack" entry) eqn:Hc.
  { exists w. rewrite quarantine_entry_skip by (left; rewrite Hc; done).
    split_and!; [done|reflexivity|done|done]. }
  destruct (fs w !! (dir ++ [entry])) as [[data|]|] eqn:Hsrc.
  2,3: exists w; rewrite quarantine_entry_skip by (right; congruence);
       split_and!; [done|reflexivity|done|done].
  destruct (quarantine_entry_moves dir entry data w) as (w' & E & Hfs & Hw');
    [by eauto..|].
  exists w'. split_and!; [done..| |].
  - intros p H1 H2. by rewrite Hw', lookup_insert_ne, !lookup_delete_ne.
  - intros _ d [= <-]. rewrite Hw'. split; [apply lookup_insert_eq|].
    rewrite lookup_insert_ne by (symmetry; apply entry_ne_deeper).
    apply lookup_delete_eq.
Qed.

Section QuarantineLoop.
Variable dir : Path.

Local Abbreviation loop l :=
  (for_ l (quarantine_entry dir (joinpath dir "unwelded"))).

Lemma quarantine_loop_fs_only (l : list string) : preserves fs_only (loop l).
Proof.
  apply preserves_for_; [apply _|]. intros. apply quarantine_entry_fs_only.
Qed.

Lemma quarantine_loop_same_at (l : list string) (p : Path) :
  (forall name, name ∈ l ->
     contains "weld_pack" name = true
     \/ (p ≠ dir ++ [name] /\ p ≠ dir ++ ["unwelded"; name])) ->
  preserves (same_at p) (loop l).
Proof.
  intros H. apply preserves_for_; [apply _|].
  intros name Hin. apply quarantine_entry_same_at. auto.
Qed.

Lemma quarantine_loop_no_new_file (l : list string) (name : string) :
  preserves (no_new_file (dir ++ [name])) (loop l).
Proof.
  apply preserves_for_; [apply _|]. intros. apply quarantine_entry_no_new_file.
Qed.

(** A loop that returns leaves none of its entries as a loose regular
    file, the names with the reserved pattern apart. *)
Lemma quarantine_loop_Ok_not_file (l : list string) (w w' : World) :
  loop l w = (Ok tt, w') ->
  forall name, name ∈ l -> contains "weld_pack" name = false ->
  forall data, fs w' !! (dir ++ [name]) ≠ Some (File data).
Proof.
  revert w. induction l as [|x l IH]; intros w E name Hin Hc data.
  { by apply elem_of_nil in Hin. }
  rewrite for_cons in E.
  destruct (quarantine_entry dir (joinpath dir "unwelded") x w)
    as [[[]|e] w1] eqn:E1; [|done].
  apply elem_of_cons in Hin as [->|Hin]; [|by eapply IH].
  intros Hfile.
  pose proof (quarantine_loop_no_new_file l x w1) as Hkeep.
  unfold no_new_file in Hkeep. rewrite E in Hkeep.
  by eapply quarantine_entry_Ok_not_file, Hkeep.
Qed.

(** A loop with nothing to move returns and changes nothing. *)
Lemma quarantine_loop_skip (l : list string) (w : World) :
  (forall name, name ∈ l ->
     contains "weld_pack" name = true
     \/ forall data, fs w !! (dir ++ [name]) ≠ Some (File data)) ->
  loop l w = (Ok tt, w).
Proof.
  induction l as [|x l IH]; intros H; [done|].
  rewrite for_cons, quarantine_entry_skip by (apply H; left).
  apply IH. intros name Hin. apply H. by right.
Qed.

(** The loop moves every loose regular file of its list, the names with
    the reserved pattern apart, when the holding directory is there and no
    directory in it has the name of one of them. *)
Lemma quarantine_loop_moves (l : list string) (w : World) :
  NoDup l ->
  fs w !! (dir ++ ["unwelded"]) = Some Dir ->
  (forall name, name ∈ l -> contains "weld_pack" name = false ->
     forall data, fs w !! (dir ++ [name]) = Some (File data) ->
                  fs w !! (dir ++ ["unwelded"; name]) ≠ Some Dir) ->
  exists w',
    loop l w = (Ok tt, w')
    /\ fs_only w w'
    /\ forall name, name ∈ l -> contains "weld_pack" name = false ->
         forall data, fs w !! (dir ++ [name]) = Some (File data) ->
           fs w' !! (dir ++ ["unwelded"; name]) = Some (File data)
           /\ fs w' !! (dir ++ [name]) = None.
Proof.
  revert w. induction l as [|x l IH]; intros w Hnd Hunw Hfree.
  { exists w. split_and!; [done|reflexivity|]. intros ? []%elem_of_nil. }
  apply NoDup_cons in Hnd as [Hx Hnd].
  destruct (quarantine_entry_turn dir x w) as (w1 & E1 & Hfs1 & Hsame & Hmoved);
    [done|intros Hc data Hd; exact (Hfree x ltac:(by left) Hc data Hd)|].
  assert (forall name, name ∈ l ->
            fs w1 !! (dir ++ [name]) = fs w !! (dir ++ [name])
            /\ fs w1 !! (dir ++ ["unwelded"; name])
               = fs w !! (dir ++ ["unwelded"; name])) as Hrest.
  { intros name Hin. assert (name ≠ x) by (intros ->; done).
    split; apply Hsame.
    - intros H'. apply app_inv_head in H'. congruence.
    - apply entry_ne_deeper.
    - intros H'. symmetry in H'. by apply entry_ne_deeper in H'.
    - intros H'. apply app_inv_head in H'. congruence. }
  assert (fs w1 !! (dir ++ ["unwelded"]) = Some Dir) as Hunw1.
  { destruct (decide (x = "unwelded")) as [->|Hne].
    - rewrite quarantine_entry_skip in E1
        by (right; intros d; rewrite Hunw; done).
      by injection E1 as <-.
    - rewrite <- Hunw. apply Hsame.
      + intros H'. apply app_inv_head in H'. congruence.
      + change (dir ++ ["unwelded"; x]) with (dir ++ ["unwelded"] ++ [x]).
        rewrite app_assoc. apply path_ne_below. }
  destruct (IH w1) as (w' & E & Hfs & Hpost); [done..| |].
  { intros name Hin Hc data. destruct (Hrest name Hin) as [-> ->].
    apply Hfree; [by right|done]. }
  exists w'. split_and!.
  - by rewrite for_cons, E1.
  - by etrans.
  - intros name Hin Hc data Hfile.
    apply elem_of_cons in Hin as [->|Hin].
    + destruct (Hmoved Hc data Hfile) as [Ht Hs].
      pose proof (quarantine_loop_same_at l (dir ++ ["unwelded"; x])) as P1.
      pose proof (quarantine_loop_same_at l (dir ++ [x])) as P2.
      specialize (P1 ltac:(intros n Hn; right; split;
        [intros H'; symmetry in H'; by apply entry_ne_deeper in H'
        |intros H'; apply app_inv_head in H'; injection H' as ->; done]) w1).
      specialize (P2 ltac:(intros n Hn; right; split;
        [intros H'; apply app_inv_head in H'; injection H' as ->; done
        |apply entry_ne_deeper]) w1).
      unfold same_at in P1, P2. rewrite E in P1, P2. simpl in P1, P2.
      by rewrite P1, P2.
    + apply Hpost; [done..|]. by destruct (Hrest name Hin) as [-> _].
Qed.
End QuarantineLoop.

(** ** One merge pass *)

Lemma os_mkdir_same_at (p q : Path) : p ≠ q -> preserves (same_at p) (os_mkdir q).
Proof.
  intros Hne w. unfold same_at, os_mkdir.
  repeat case_match; simpl; try done. by rewrite lookup_insert_ne.
Qed.

Lemma os_mkdir_fs_only (q : Path) : preserves fs_only (os_mkdir q).
Proof. intros w. unfold os_mkdir. by repeat case_match. Qed.

Lemma os_mkdir_no_new_file (p q : Path) : preserves (no_new_file p) (os_mkdir q).
Proof.
  intros w data. unfold os_mkdir. repeat case_match; simpl; try done.
  destruct (decide (q = p)) as [->|Hne].
  - by rewrite lookup_insert_eq.
  - by rewrite lookup_insert_ne.
Qed.

(** The first half touches the holding directory, the loose entries
    without the reserved pattern and their places in the holding directory,
    and nothing else. *)
Lemma weld_dir_quarantine_same_at (dir p : Path) :
  p ≠ dir ++ ["unwelded"] ->
  (forall name, contains "weld_pack" name = true
                \/ (p ≠ dir ++ [name] /\ p ≠ dir ++ ["unwelded"; name])) ->
  preserves (same_at p) (weld_dir_quarantine dir).
Proof.
  intros Hunw Hp. unfold weld_dir_quarantine.
  step_bind; [step_pure|]. step_bind.
  { step_if; [step_pure|by apply os_mkdir_same_at]. }
  step_bind; [step_pure|]. apply quarantine_loop_same_at. auto.
Qed.

Lemma weld_dir_quarantine_fs_only (dir : Path) :
  preserves fs_only (weld_dir_quarantine dir).
Proof.
  unfold weld_dir_quarantine.
  step_bind; [step_pure|]. step_bind.
  { step_if; [step_pure|apply os_mkdir_fs_only]. }
  step_bind; [step_pure|]. apply quarantine_loop_fs_only.
Qed.

Lemma listed_call_is_weld_call (dir : Path) (f : gmap Path node) :
  is_weld_call dir f (listed_call dir f).
Proof. by split_and!. Qed.

Section MergeSteps.
Variable run_weld : RunWeld.

(** The second half, spelled out: the listing of the holding directory,
    the call, the save and the leaving, with every way to raise. *)
Lemma weld_dir_weld_unfold (dir : Path) (w : World) :
  weld_dir_weld run_weld dir w =
  match fs w !! (dir ++ ["unwelded"]) with
  | Some Dir =>
      let call := listed_call dir (fs w) in
      let calls := weld_calls w ++ [call] in
      match run_weld (call_packs call) (call_config call) dir (fs w) with
      | (Raise e, f1, out1) => (Raise e, mkWorld f1 (stdout w ++ out1) calls)
      | (Ok ctx, f1, out1) =>
          match ctx_data_save ctx (dir ++ ["weld_pack.zip"]) f1 with
          | (Ok _, f2, out2) =>
              match leave ctx None f2 with
              | (Ok _, f3, out3) =>
                  (Ok tt, mkWorld f3 (((stdout w ++ out1) ++ out2) ++ out3) calls)
              | (Raise e, f3, out3) =>
                  (Raise e, mkWorld f3 (((stdout w ++ out1) ++ out2) ++ out3) calls)
              end
          | (Raise e, f2, out2) =>
              match leave ctx (Some e) f2 with
              | (Ok true, f3, out3) =>
                  (Ok tt, mkWorld f3 (((stdout w ++ out1) ++ out2) ++ out3) calls)
              | (Ok false, f3, out3) =>
                  (Raise e, mkWorld f3 (((stdout w ++ out1) ++ out2) ++ out3) calls)
              | (Raise e', f3, out3) =>
                  (Raise e', mkWorld f3 (((stdout w ++ out1) ++ out2) ++ out3) calls)
              end
          end
      end
  | _ => (Raise OSError, w)
  end.
Proof.
  unfold weld_dir_weld, bind, os_listdir, with_, enter_run_weld, lib, joinpath.
  destruct (fs w !! (dir ++ ["unwelded"])) as [[|]|]; [done| |done].
  cbv zeta. unfold listed_call, joinpath. simpl.
  destruct (run_weld _ _ _ _) as [[[ctx|e] f1] out1]; simpl; [|done].
  destruct (ctx_data_save ctx _ f1) as [[[[]|e] f2] out2]; simpl.
  - by destruct (leave ctx None f2) as [[[b|e] f3] out3].
  - by destruct (leave ctx (Some e) f2) as [[[[|]|e'] f3] out3].
Qed.

Lemma weld_dir_eq (dir : Path) (w : World) :
  weld_dir run_weld dir w =
  match weld_dir_quarantine dir w with
  | (Ok _, wq) => weld_dir_weld run_weld dir wq
  | (Raise e, wq) => (Raise e, wq)
  end.
Proof. done. Qed.
End MergeSteps.

Section MergePass.
Variable merge : Merge.

(** The second half for the engine of the specification. *)
Lemma weld_dir_weld_eq (dir : Path) (w : World) :
  weld_dir_weld (quiet merge) dir w =
  match fs w !! (dir ++ ["unwelded"]) with
  | Some Dir =>
      let packs :=
        map (fun x => joinpath dir x) (children (fs w) (dir ++ ["unwelded"])) in
      let config := [("output", Path_str dir)] in
      let calls := weld_calls w ++ [mkWeldCall packs config dir] in
      match merge packs config dir (fs w) with
      | Ok data =>
          (Ok tt, mkWorld (<[dir ++ ["weld_pack.zip"] := File data]> (fs w))
                          (stdout w) calls)
      | Raise e => (Raise e, mkWorld (fs w) (stdout w) calls)
      end
  | _ => (Raise OSError, w)
  end.
Proof.
  rewrite weld_dir_weld_unfold.
  destruct (fs w !! (dir ++ ["unwelded"])) as [[|]|]; [done| |done].
  cbv zeta. unfold quiet, listed_call. simpl.
  destruct (merge _ _ _ _); simpl; by rewrite !app_nil_r.
Qed.

(** The second half writes the merged pack and nothing else. *)
Lemma weld_dir_weld_same_at (dir p : Path) :
  p ≠ dir ++ ["weld_pack.zip"] ->
  preserves (same_at p) (weld_dir_weld (quiet merge) dir).
Proof.
  intros Hne w. unfold same_at. rewrite weld_dir_weld_eq.
  destruct (fs w !! (dir ++ ["unwelded"])) as [[|]|]; [done| |done].
  cbv zeta. destruct (merge _ _ _ _); simpl; [|done].
  by rewrite lookup_insert_ne.
Qed.

Lemma weld_dir_weld_same_stdout (dir : Path) :
  preserves same_stdout (weld_dir_weld (quiet merge) dir).
Proof.
  intros w. unfold same_stdout. rewrite weld_dir_weld_eq.
  destruct (fs w !! (dir ++ ["unwelded"])) as [[|]|]; [done| |done].
  cbv zeta. by destruct (merge _ _ _ _).
Qed.

Lemma weld_dir_same_stdout (dir : Path) :
  preserves same_stdout (weld_dir (quiet merge) dir).
Proof.
  unfold weld_dir. apply preserves_bind; [apply _| |].
  - intros w. apply weld_dir_quarantine_fs_only.
  - intros _. apply weld_dir_weld_same_stdout.
Qed.

(** C9.  The loop skips an entry by substring containment: whatever has
    ["weld_pack"] anywhere in its name is left where it is by [weld_dir].
    Nothing is put at its place in the holding directory, the entry is
    still among the entries of the content directory afterwards, with what
    it held (the one exception being the entry named [weld_pack.zip]
    itself, which the merge overwrites in place), and the quarantine loop
    alone does not touch it at all.  The merge engine is the one of the
    specification, [quiet], which changes nothing of its own. *)
Theorem weld_pack_entry_stays_loose (dir : Path) (name : string) (w : World) :
  contains "weld_pack" name = true ->
  let wq := snd (weld_dir_quarantine dir w) in
  let w' := snd (weld_dir (quiet merge) dir w) in
  fs w' !! (dir ++ ["unwelded"; name]) = fs w !! (dir ++ ["unwelded"; name])
  /\ (is_Some (fs w !! (dir ++ [name])) -> is_Some (fs w' !! (dir ++ [name])))
  /\ (name ≠ "weld_pack.zip" -> fs w' !! (dir ++ [name]) = fs w !! (dir ++ [name]))
  /\ fs wq !! (dir ++ [name]) = fs w !! (dir ++ [name]).
Proof.
  intros Hc wq w'.
  assert (name ≠ "unwelded") as Hname by (by intros ->).
  assert (forall n, contains "weld_pack" n = true \/ n ≠ name) as Hn.
  { intros n. destruct (decide (n = name)) as [->|]; auto. }
  assert (same_at (dir ++ [name]) w wq) as Hq1.
  { apply weld_dir_quarantine_same_at.
    - intros H. apply app_inv_head in H. congruence.
    - intros n. destruct (Hn n) as [?|Hne]; [by left|right]. split.
      + intros H. apply app_inv_head in H. congruence.
      + apply entry_ne_deeper. }
  assert (same_at (dir ++ ["unwelded"; name]) w wq) as Hq2.
  { apply weld_dir_quarantine_same_at.
    - intros H. apply app_inv_head in H. discriminate.
    - intros n. destruct (Hn n) as [?|Hne]; [by left|right]. split.
      + intros H. symmetry in H. by apply entry_ne_deeper in H.
      + intros H. apply app_inv_head in H. congruence. }
  assert (same_at (dir ++ ["unwelded"; name]) wq w') as Hw2.
  { subst w' wq. rewrite weld_dir_eq.
    destruct (weld_dir_quarantine dir w) as [[[]|e] wq]; [|done].
    apply weld_dir_weld_same_at.
    intros H. symmetry in H. by apply entry_ne_deeper in H. }
  split_and!.
  - unfold same_at in *. congruence.
  - intros Hsome. unfold same_at in Hq1. rewrite <- Hq1 in Hsome.
    subst w' wq. rewrite weld_dir_eq.
    destruct (weld_dir_quarantine dir w) as [[[]|e] wq]; [|done].
    simpl in Hsome. rewrite weld_dir_weld_eq.
    destruct (fs wq !! (dir ++ ["unwelded"])) as [[|]|]; [done| |done].
    cbv zeta. destruct (merge _ _ _ _); simpl; [|done].
    apply lookup_insert_is_Some'. auto.
  - intros Hart. unfold same_at in Hq1. rewrite <- Hq1.
    subst w' wq. rewrite weld_dir_eq.
    destruct (weld_dir_quarantine dir w) as [[[]|e] wq]; [|done].
    apply weld_dir_weld_same_at.
    intros H. apply app_inv_head in H. congruence.
  - exact Hq1.
Qed.
End MergePass.

(** ** The holding directory after the first half *)

(** A turn of the loop leaves the directories among the entries of [dir]
    in place. *)
Lemma quarantine_entry_keeps_dir (dir : Path) (name entry : string) :
  preserves (keeps_dir (dir ++ [name]))
            (quarantine_entry dir (joinpath dir "unwelded") entry).
Proof.
  intros w Hdir. pose proof (entry_ne_deeper dir name "unwelded" entry) as Hne.
  destruct (quarantine_entry_cases dir entry w)
    as [_ [(_ & -> & _)|(Hc & d & Hd & [(_ & [[_ ->]|[_ ->]])|(_ & _ & ->)])]];
    try done.
  - by rewrite lookup_delete_ne.
  - assert (dir ++ [entry] ≠ dir ++ [name]) by congruence.
    by rewrite lookup_insert_ne, !lookup_delete_ne.
Qed.

Lemma quarantine_loop_keeps_dir (dir : Path) (name : string) (l : list string) :
  preserves (keeps_dir (dir ++ [name]))
            (for_ l (quarantine_entry dir (joinpath dir "unwelded"))).
Proof.
  apply preserves_for_; [apply _|]. intros. apply quarantine_entry_keeps_dir.
Qed.

(** The loop cannot return when the holding path is a regular file that it
    meets: the move of that file into itself is refused. *)
Lemma quarantine_loop_holding_file (dir : Path) (l : list string)
    (w w' : World) (data : string) :
  for_ l (quarantine_entry dir (joinpath dir "unwelded")) w = (Ok tt, w') ->
  "unwelded" ∈ l ->
  fs w !! (dir ++ ["unwelded"]) ≠ Some (File data).
Proof.
  revert w. induction l as [|x l IH]; intros w E Hin Hfile.
  { by apply elem_of_nil in Hin. }
  simpl in E. unfold bind in E.
  destruct (quarantine_entry_cases dir x w) as [_ Hcases].
  pose proof (quarantine_entry_same_at dir (dir ++ ["unwelded"]) x) as Hsame.
  destruct (quarantine_entry dir (joinpath dir "unwelded") x w)
    as [[[]|e] w1] eqn:E1; [|done].
  simpl in Hcases.
  destruct (decide (x = "unwelded")) as [->|Hx].
  - destruct Hcases
      as [(_ & _ & [Hc|H])|(_ & d & _ & [(? & _)|(_ & ? & _)])];
      [by vm_compute in Hc|by destruct (H data)|congruence..].
  - apply elem_of_cons in Hin as [?|Hin]; [done|].
    apply (IH w1); [done..|].
    specialize (Hsame ltac:(right; split;
      [intros H; apply app_inv_head in H; congruence
      |intros H; apply app_inv_head in H; discriminate]) w).
    unfold same_at in Hsame. rewrite E1 in Hsame. simpl in Hsame. congruence.
Qed.

(** What a first half that returns went through: the world [w0] in which
    the entries were listed, with the holding path present, and the loop over
    that listing. *)
Lemma weld_dir_quarantine_Ok_inv (dir : Path) (w wq : World) :
  weld_dir_quarantine dir w = (Ok tt, wq) ->
  exists w0,
    fs w0 !! dir = Some Dir
    /\ is_Some (fs w0 !! (dir ++ ["unwelded"]))
    /\ (forall p, p ≠ dir ++ ["unwelded"] -> fs w0 !! p = fs w !! p)
    /\ for_ (children (fs w0) dir)
             (quarantine_entry dir (joinpath dir "unwelded")) w0
       = (Ok tt, wq).
Proof.
  unfold weld_dir_quarantine, bind, Path_exists, os_listdir, os_mkdir, ret.
  change (joinpath dir "unwelded") with (dir ++ ["unwelded"]). simpl.
  intros E.
  destruct (fs w !! (dir ++ ["unwelded"])) as [nd|] eqn:Hunw.
  - rewrite bool_decide_eq_true_2 in E by eauto. exists w.
    destruct (fs w !! dir) as [[|]|] eqn:Hd; [done| |done].
    split_and!; [done|by rewrite Hunw|done|done].
  - rewrite bool_decide_eq_false_2 in E by (by intros [? ?]).
    rewrite Hunw in E.
    destruct (fs w !! parent (dir ++ ["unwelded"])) as [[|]|]; try done.
    simpl in E.
    destruct (<[dir ++ ["unwelded"]:=Dir]> (fs w) !! dir) as [[|]|] eqn:Hd;
      [done| |done].
    exists (set_fs w (<[dir ++ ["unwelded"]:=Dir]> (fs w))).
    split_and!; [done| | |done]; simpl.
    + rewrite lookup_insert_eq. eauto.
    + intros p Hp. by rewrite lookup_insert_ne.
Qed.

(** When the first half returns, the holding directory is there. *)
Lemma weld_dir_quarantine_Ok_holding (dir : Path) (w wq : World) :
  weld_dir_quarantine dir w = (Ok tt, wq) ->
  fs wq !! (dir ++ ["unwelded"]) = Some Dir.
Proof.
  intros (w0 & Hdir & [nd Hnd] & _ & Hloop)%weld_dir_quarantine_Ok_inv.
  destruct nd as [data|].
  - exfalso. eapply quarantine_loop_holding_file; [exact Hloop| |exact Hnd].
    apply elem_of_children. eauto.
  - pose proof (quarantine_loop_keeps_dir dir "unwelded" (children (fs w0) dir) w0)
      as Hkeep.
    unfold keeps_dir in Hkeep. rewrite Hloop in Hkeep. auto.
Qed.

(** When the first half returns, the content directory is a directory
    and none of its entries is a loose regular file, the names with the
    reserved pattern apart. *)
Lemma weld_dir_quarantine_Ok_clean (dir : Path) (w wq : World) :
  weld_dir_quarantine dir w = (Ok tt, wq) ->
  fs wq !! dir = Some Dir
  /\ forall name data,
       fs wq !! (dir ++ [name]) = Some (File data) ->
       contains "weld_pack" name = true.
Proof.
  intros (w0 & Hdir & _ & _ & Hloop)%weld_dir_quarantine_Ok_inv. split.
  - pose proof (quarantine_loop_same_at dir (children (fs w0) dir) dir) as Hsame.
    specialize (Hsame ltac:(intros n _; right; split; apply path_ne_below) w0).
    unfold same_at in Hsame. rewrite Hloop in Hsame. simpl in Hsame. congruence.
  - intros name data Hfile.
    destruct (contains "weld_pack" name) eqn:Hc; [done|exfalso].
    pose proof (quarantine_loop_no_new_file dir (children (fs w0) dir) name w0)
      as Hold.
    unfold no_new_file in Hold. rewrite Hloop in Hold.
    specialize (Hold data Hfile).
    eapply (quarantine_loop_Ok_not_file dir); [exact Hloop| |exact Hc|exact Hfile].
    apply elem_of_children. eauto.
Qed.

(** A first half with nothing to do. *)
Lemma weld_dir_quarantine_noop (dir : Path) (w : World) :
  fs w !! dir = Some Dir ->
  is_Some (fs w !! (dir ++ ["unwelded"])) ->
  (forall name, contains "weld_pack" name = true
                \/ forall data, fs w !! (dir ++ [name]) ≠ Some (File data)) ->
  weld_dir_quarantine dir w = (Ok tt, w).
Proof.
  intros Hdir Hunw Hclean.
  unfold weld_dir_quarantine, bind, Path_exists, os_listdir, ret.
  change (joinpath dir "unwelded") with (dir ++ ["unwelded"]). simpl.
  rewrite bool_decide_eq_true_2, Hdir by done.
  apply quarantine_loop_skip. auto.
Qed.

Lemma artifact_name_reserved : contains "weld_pack" "weld_pack.zip" = true.
Proof. reflexivity. Qed.

(** The first half never touches the path of the merged pack. *)
Lemma weld_dir_quarantine_artifact (dir : Path) :
  preserves (same_at (dir ++ ["weld_pack.zip"])) (weld_dir_quarantine dir).
Proof.
  apply weld_dir_quarantine_same_at.
  - intros H. apply app_inv_head in H. discriminate.
  - intros name. destruct (decide (name = "weld_pack.zip")) as [->|Hne].
    + left. apply artifact_name_reserved.
    + right. split.
      * intros H. apply app_inv_head in H. congruence.
      * apply entry_ne_deeper.
Qed.

Section MergeClaims.
Variable run_weld : RunWeld.
Variable merge : Merge.

(** C8, as the code has it.  Let the quarantine have returned.  The pass
    then enters the merge engine once, on a call whose packs are the names
    of the holding directory joined onto the content directory.  When the
    engine raises as it is entered, [weld_dir] raises the same exception
    and does nothing more: the file system is the one the engine left when
    it raised.  The merged pack is not saved, so the path of the merged
    pack holds what it held before the pass unless the engine itself
    changed it, and nothing is rolled back, so whatever the engine left
    alone in the holding directory is as the quarantine left it.  When the
    engine hands back its context and raises only as it is left,
    [weld_dir] raises that exception as well and rolls nothing back, but
    the save has been done by then: the file system is what the leaving
    made of the one the save left. *)
Theorem merge_failure_keeps_quarantine (dir : Path) (w wq : World) :
  weld_dir_quarantine dir w = (Ok tt, wq) ->
  exists call,
    is_weld_call dir (fs wq) call
    /\ weld_calls (snd (weld_dir run_weld dir w)) = weld_calls w ++ [call]
    /\ (forall e f' out,
          run_weld (call_packs call) (call_config call) (call_directory call)
                   (fs wq) = (Raise e, f', out) ->
          exists w',
            weld_dir run_weld dir w = (Raise e, w')
            /\ fs w' = f'
            /\ (f' !! (dir ++ ["weld_pack.zip"])
                = fs wq !! (dir ++ ["weld_pack.zip"]) ->
                fs w' !! (dir ++ ["weld_pack.zip"])
                = fs w !! (dir ++ ["weld_pack.zip"]))
            /\ (forall name data,
                  fs wq !! (dir ++ ["unwelded"; name]) = Some (File data) ->
                  f' !! (dir ++ ["unwelded"; name])
                  = fs wq !! (dir ++ ["unwelded"; name]) ->
                  fs w' !! (dir ++ ["unwelded"; name]) = Some (File data)))
    /\ (forall e ctx f1 out1 f2 out2 f3 out3,
          run_weld (call_packs call) (call_config call) (call_directory call)
                   (fs wq) = (Ok ctx, f1, out1) ->
          ctx_data_save ctx (dir ++ ["weld_pack.zip"]) f1 = (Ok tt, f2, out2) ->
          leave ctx None f2 = (Raise e, f3, out3) ->
          exists w', weld_dir run_weld dir w = (Raise e, w') /\ fs w' = f3).
Proof.
  intros Hq. exists (listed_call dir (fs wq)).
  pose proof (weld_dir_quarantine_fs_only dir w) as [_ Hcalls].
  rewrite Hq in Hcalls. simpl in Hcalls.
  rewrite weld_dir_eq, Hq, weld_dir_weld_unfold.
  rewrite (weld_dir_quarantine_Ok_holding dir w wq Hq). cbv zeta.
  split_and!.
  - apply listed_call_is_weld_call.
  - destruct (run_weld _ _ _ (fs wq)) as [[[ctx|e] f1] out1];
      [|by rewrite <- Hcalls].
    destruct (ctx_data_save ctx _ f1) as [[[[]|e] f2] out2].
    + by destruct (leave ctx None f2) as [[[b|e] f3] out3]; rewrite <- Hcalls.
    + by destruct (leave ctx (Some e) f2) as [[[[|]|e'] f3] out3];
        rewrite <- Hcalls.
  - intros e f' out He.
    change (call_directory (listed_call dir (fs wq))) with dir in He.
    rewrite He. eexists. split_and!; [done|done| |]; simpl.
    + intros ->. pose proof (weld_dir_quarantine_artifact dir w) as H.
      unfold same_at in H. by rewrite Hq in H.
    + intros name data Hfile ->. done.
  - intros e ctx f1 out1 f2 out2 f3 out3 He Hs Hl.
    change (call_directory (listed_call dir (fs wq))) with dir in He.
    rewrite He, Hs, Hl. eauto.
Qed.

(** C1, as the code has it.  Let the content directory exist, let its
    entry [unwelded] be missing or a directory, and let no directory in the
    holding directory have the name of a loose regular file.  Then the
    quarantine returns, and after the pass (whether the merge engine then
    returns or raises) every regular file that was loose in the content
    directory under a name without ["weld_pack"] in it is in the holding
    directory with its content and is no longer loose.  The merge engine is
    the one of the specification, [quiet], which changes nothing of its
    own. *)
Theorem quarantine_non_loss (dir : Path) (w : World) :
  fs w !! dir = Some Dir ->
  (fs w !! (dir ++ ["unwelded"]) = None
   \/ fs w !! (dir ++ ["unwelded"]) = Some Dir) ->
  (forall name data,
     fs w !! (dir ++ [name]) = Some (File data) ->
     contains "weld_pack" name = false ->
     fs w !! (dir ++ ["unwelded"; name]) ≠ Some Dir) ->
  (exists wq, weld_dir_quarantine dir w = (Ok tt, wq))
  /\ forall name data,
       fs w !! (dir ++ [name]) = Some (File data) ->
       contains "weld_pack" name = false ->
       let w' := snd (weld_dir (quiet merge) dir w) in
       fs w' !! (dir ++ ["unwelded"; name]) = Some (File data)
       /\ fs w' !! (dir ++ [name]) = None.
Proof.
  intros Hdir Hunw Hfree.
  (* the world in which the entries are listed *)
  assert (exists w0,
            weld_dir_quarantine dir w
            = for_ (children (fs w0) dir)
                   (quarantine_entry dir (joinpath dir "unwelded")) w0
            /\ fs w0 !! (dir ++ ["unwelded"]) = Some Dir
            /\ forall p, p ≠ dir ++ ["unwelded"] -> fs w0 !! p = fs w !! p)
    as (w0 & Eq & Hunw0 & Hsame0).
  { unfold weld_dir_quarantine, bind, Path_exists, os_listdir, os_mkdir, ret.
    change (joinpath dir "unwelded") with (dir ++ ["unwelded"]). simpl.
    destruct Hunw as [Hunw|Hunw]; rewrite Hunw.
    - rewrite bool_decide_eq_false_2 by (by intros [? ?]).
      change (parent (dir ++ ["unwelded"])) with (parent (joinpath dir "unwelded")).
      rewrite parent_joinpath, Hdir. simpl.
      assert (dir ++ ["unwelded"] ≠ dir) as Hne
        by (intros H; symmetry in H; by apply path_ne_below in H).
      rewrite ?Hunw. simpl. rewrite lookup_insert_ne, Hdir by done.
      exists (set_fs w (<[dir ++ ["unwelded"]:=Dir]> (fs w))).
      split_and!; [reflexivity|apply lookup_insert_eq|].
      intros p Hp. simpl. by rewrite lookup_insert_ne.
    - rewrite bool_decide_eq_true_2 by eauto. rewrite Hdir.
      exists w. done. }
  assert (forall name data, fs w !! (dir ++ [name]) = Some (File data) ->
            name ≠ "unwelded") as Hname.
  { intros name data Hf ->. destruct Hunw; congruence. }
  destruct (quarantine_loop_moves dir (children (fs w0) dir) w0)
    as (wq & Eloop & _ & Hpost); [apply NoDup_children|done| |].
  { intros name _ Hc data Hf.
    assert (name ≠ "unwelded") by (intros ->; congruence).
    rewrite Hsame0 in Hf by (intros H'; apply app_inv_head in H'; congruence).
    rewrite Hsame0 by (intros H'; apply app_inv_head in H'; discriminate).
    eauto. }
  rewrite Eloop in Eq. split; [eauto|].
  intros name data Hf Hc w'.
  assert (name ≠ "weld_pack.zip") as Hart.
  { intros ->. by rewrite artifact_name_reserved in Hc. }
  destruct (Hpost name) with (data := data) as [Ht Hs]; [|done| |].
  { apply elem_of_children. rewrite Hsame0; [eauto|].
    intros H. apply app_inv_head in H. injection H as ->. by eapply Hname. }
  { rewrite Hsame0; [done|].
    intros H. apply app_inv_head in H. injection H as ->. by eapply Hname. }
  subst w'. rewrite weld_dir_eq, Eq.
  pose proof (weld_dir_weld_same_at merge dir (dir ++ ["unwelded"; name])) as P1.
  pose proof (weld_dir_weld_same_at merge dir (dir ++ [name])) as P2.
  unfold preserves, same_at in P1, P2. rewrite P1, P2; [done| |].
  - intros H. apply app_inv_head in H. congruence.
  - intros H. symmetry in H. by apply entry_ne_deeper in H.
Qed.

(** Two passes in a row, when no entry of the holding directory has the
    name of the merged pack.  Let the merged pack depend on the arguments
    of the engine and on what lies at and below the pack paths only.  When
    the first pass returns, the second returns as well and leaves the file
    system exactly as the first left it: the same holding directory, the
    same merged pack. *)
Lemma second_pass_repeats_first (dir : Path) (w w1 : World) :
  (forall packs config d f1 f2,
     (forall p rest, p ∈ packs -> f1 !! (p ++ rest) = f2 !! (p ++ rest)) ->
     merge packs config d f1 = merge packs config d f2) ->
  fs w !! (dir ++ ["unwelded"; "weld_pack.zip"]) = None ->
  weld_dir (quiet merge) dir w = (Ok tt, w1) ->
  exists w2, weld_dir (quiet merge) dir w1 = (Ok tt, w2) /\ fs w2 = fs w1.
Proof.
  intros Hread Hheld E. rewrite weld_dir_eq in E.
  destruct (weld_dir_quarantine dir w) as [[[]|e] wq] eqn:Eq; [|done].
  pose proof (weld_dir_quarantine_Ok_holding dir w wq Eq) as Hunw.
  destruct (weld_dir_quarantine_Ok_clean dir w wq Eq) as [Hdir Hclean].
  assert (fs wq !! (dir ++ ["unwelded"; "weld_pack.zip"]) = None) as Hheld'.
  { rewrite <- Hheld.
    pose proof (weld_dir_quarantine_same_at dir
                  (dir ++ ["unwelded"; "weld_pack.zip"])) as H.
    unfold preserves, same_at in H. specialize (H
      ltac:(intros H'; apply app_inv_head in H'; discriminate)
      ltac:(intros n; destruct (decide (n = "weld_pack.zip")) as [->|];
            [left; reflexivity
            |right; split;
             [intros H'; symmetry in H'; by apply entry_ne_deeper in H'
             |intros H'; apply app_inv_head in H'; congruence]]) w).
    by rewrite Eq in H. }
  rewrite weld_dir_weld_eq, Hunw in E. cbv zeta in E.
  destruct (merge _ _ _ (fs wq)) as [data|e] eqn:Ew; [|done].
  injection E as <-.
  set (art := dir ++ ["weld_pack.zip"]).
  set (calls := weld_calls wq ++ _).
  set (w1 := mkWorld (<[art := File data]> (fs wq)) (stdout wq) calls).
  assert (forall p, p ≠ art -> fs w1 !! p = fs wq !! p) as Hsame.
  { intros p Hp. simpl. by rewrite lookup_insert_ne. }
  assert (dir ≠ art) as Hne1 by apply path_ne_below.
  assert (dir ++ ["unwelded"] ≠ art) as Hne2.
  { intros H. apply app_inv_head in H. discriminate. }
  assert (weld_dir_quarantine dir w1 = (Ok tt, w1)) as Eq1.
  { apply weld_dir_quarantine_noop.
    - by rewrite Hsame.
    - rewrite Hsame by done. eauto.
    - intros name. destruct (contains "weld_pack" name) eqn:Hc; [by left|right].
      intros d. rewrite Hsame.
      + intros Hf. apply Hclean in Hf. congruence.
      + intros H. apply app_inv_head in H. injection H as ->.
        by rewrite artifact_name_reserved in Hc. }
  assert (children (fs w1) (dir ++ ["unwelded"])
          = children (fs wq) (dir ++ ["unwelded"])) as Ech.
  { apply children_ext. intros name. rewrite Hsame; [done|].
    rewrite <- app_assoc. intros H. apply app_inv_head in H. discriminate. }
  rewrite weld_dir_eq, Eq1, weld_dir_weld_eq.
  rewrite Hsame, Hunw by done. cbv zeta. rewrite Ech.
  rewrite (Hread _ _ _ (fs w1) (fs wq)), Ew.
  - eexists. split; [reflexivity|]. simpl. apply insert_insert_eq.
  - intros p rest Hin. apply Hsame.
    apply list_elem_of_fmap in Hin as (name & -> & Hname).
    apply elem_of_children in Hname. unfold joinpath, art.
    rewrite <- app_assoc. intros H. apply app_inv_head in H.
    injection H as -> _. rewrite <- app_assoc in Hname. simpl in Hname.
    rewrite Hheld' in Hname. by destruct Hname.
Qed.
End MergeClaims.

(** ** The hook handler and the module body *)

Lemma preserves_weaken {A} (R R' : relation World) (c : M A) :
  (forall w w', R w w' -> R' w w') -> preserves R c -> preserves R' c.
Proof. intros H Hc w. apply H, Hc. Qed.

Lemma same_stdout_no_result_yet (w w' : World) :
  same_stdout w w' -> no_result_yet w w'.
Proof. intros H. exists []. by rewrite app_nil_r. Qed.

Lemma print_no_result_yet (line : string) :
  is_set_result line = false -> preserves no_result_yet (print line).
Proof.
  intros H w. exists [line]. split; [done|].
  unfold count_set_result. rewrite filter_cons, H. done.
Qed.

(** Finding the directories of the datapacks changes nothing. *)
Lemma datapack_dirs_of_pure (arg : json) (game_dir : Path) (w : World) :
  snd (datapack_dirs_of arg game_dir w) = w.
Proof.
  symmetry. revert w. change (preserves eq (datapack_dirs_of arg game_dir)).
  unfold datapack_dirs_of.
  step_bind; [step_pure|]. step_bind; [step_pure|].
  assert (forall v, preserves eq (dir <- joinpath_value game_dir v ;; ret [dir]))
    as Hover.
  { intros v. step_bind; [step_pure|]. apply preserves_ret. apply _. }
  destruct a0; try apply Hover.
  step_bind; [step_pure|]. step_if.
  - step_bind; [step_pure|]. apply preserves_for_acc; [apply _|].
    intros entry acc. step_bind; [by apply preserves_raise; apply _|].
    step_bind; [step_pure|]. apply preserves_ret. apply _.
  - apply preserves_ret. apply _.
Qed.

Section HookSteps.
Variable run_weld : RunWeld.
Variable json_loads : string -> result json.

Lemma report_result_eq (w : World) :
  report_result w
  = (Ok tt, mkWorld (fs w) (stdout w ++ [set_result_line]) (weld_calls w)).
Proof. reflexivity. Qed.

Lemma main_eq (argv : list string) (w : World) :
  main run_weld json_loads argv w =
  match run run_weld json_loads argv w with
  | (Ok _, w') =>
      (Ok tt, mkWorld (fs w') (stdout w' ++ [set_result_line]) (weld_calls w'))
  | (Raise e, w') => (Raise e, w')
  end.
Proof. unfold main, bind. by destruct (run _ _ _ _) as [[[]|e] w']. Qed.

(** The hook handler returns at once for any other hook. *)
Lemma run_other_hook (prog hook : string) (rest : list string) (w : World) :
  hook ≠ "on_instance_setup" ->
  run run_weld json_loads (prog :: hook :: rest) w = (Ok tt, w).
Proof.
  intros H. unfold run, bind. simpl.
  apply String.eqb_neq in H. by rewrite H.
Qed.

(** The hook handler returns at once for a shallow update. *)
Lemma run_shallow (prog raw : string) (rest : list string)
    (fields : list (string * json)) (w : World) :
  json_loads raw = Ok (JObj fields) ->
  dict_get "update_depth" fields = Some (JStr "shallow") ->
  run run_weld json_loads (prog :: "on_instance_setup" :: raw :: rest) w
  = (Ok tt, w).
Proof.
  intros Hl Hd. unfold run, bind. simpl. rewrite Hl. simpl. by rewrite Hd.
Qed.

(** C5, as the code has it.  The data of the [set_result] event is a
    JSON string, the text [json.dumps] makes of the fixed object
    [{main_class_override: null, jar_path_override: null,
    classpath_extension: []}]; it is not that object itself.  The line
    printed is the sentinel followed by the object whose key [set_result]
    holds that string, quotes escaped. *)
Theorem set_result_payload_is_string (w : World) :
  report_result w
  = (Ok tt, mkWorld (fs w) (stdout w ++ [set_result_line]) (weld_calls w))
  /\ set_result_line
     = "%_" +:+ json_dumps
                  (JObj [("set_result", JStr (json_dumps set_result_payload))])
  /\ json_dumps set_result_payload
     = "{" +:+ dq +:+ "main_class_override" +:+ dq +:+ ": null, "
       +:+ dq +:+ "jar_path_override" +:+ dq +:+ ": null, "
       +:+ dq +:+ "classpath_extension" +:+ dq +:+ ": []}".
Proof. split_and!; reflexivity. Qed.

(** C7.  For the hook [on_instance_setup] with a context whose
    [update_depth] is ["shallow"], the module body leaves the file system
    as it is, never calls the merge engine, and prints one line only, the
    [set_result] event: no [start_process], [message] or [end_process]. *)
Theorem shallow_is_noop (prog raw : string) (rest : list string)
    (fields : list (string * json)) (w : World) :
  json_loads raw = Ok (JObj fields) ->
  dict_get "update_depth" fields = Some (JStr "shallow") ->
  main run_weld json_loads (prog :: "on_instance_setup" :: raw :: rest) w
  = (Ok tt, mkWorld (fs w) (stdout w ++ [set_result_line]) (weld_calls w))
  /\ count_set_result [set_result_line] = 1.
Proof.
  intros Hl Hd. split; [|done].
  by rewrite main_eq, (run_shallow _ _ _ fields).
Qed.

End HookSteps.

Section HookHandler.
Variable merge : Merge.
Variable json_loads : string -> result json.

Lemma weld_dir_no_result_yet (dir : Path) :
  preserves no_result_yet (weld_dir (quiet merge) dir).
Proof.
  eapply preserves_weaken;
    [apply same_stdout_no_result_yet|apply weld_dir_same_stdout].
Qed.

(** The hook handler prints no [set_result] event. *)
Lemma run_no_result_yet (argv : list string) :
  preserves no_result_yet (run (quiet merge) json_loads argv).
Proof.
  unfold run.
  step_bind; [step_pure|]. step_if; [apply preserves_ret; apply _|].
  step_bind; [step_pure|]. step_bind; [step_pure|].
  step_bind; [step_pure|]. step_if; [apply preserves_ret; apply _|].
  step_bind; [by apply print_no_result_yet|].
  step_bind; [by apply print_no_result_yet|].
  step_bind; [step_pure|]. step_bind; [step_pure|].
  step_bind; [step_pure_with datapack_dirs_of_pure|].
  step_bind.
  { apply preserves_for_; [apply _|]. intros. apply weld_dir_no_result_yet. }
  step_bind.
  { apply preserves_for_; [apply _|]. intros. apply weld_dir_no_result_yet. }
  step_bind; by apply print_no_result_yet.
Qed.

(** C6.  Whenever the hook handler returns, the module body prints
    exactly one [set_result] event, and prints it after every line of the
    hook handler.  The merge engine is the one of the specification,
    [quiet], which prints nothing. *)
Theorem one_set_result_after_run (argv : list string) (w w' : World) :
  run (quiet merge) json_loads argv w = (Ok tt, w') ->
  exists lines,
    stdout w' = stdout w ++ lines
    /\ main (quiet merge) json_loads argv w
       = (Ok tt, mkWorld (fs w') (stdout w ++ lines ++ [set_result_line])
                         (weld_calls w'))
    /\ is_set_result set_result_line = true
    /\ count_set_result (lines ++ [set_result_line]) = 1.
Proof.
  intros E. destruct (run_no_result_yet argv w) as (lines & Hl & Hc).
  rewrite E in Hl. simpl in Hl. exists lines. split_and!; [done| |done|].
  - by rewrite main_eq, E, Hl, <- app_assoc.
  - by rewrite count_set_result_app, Hc.
Qed.

(** C10.  When the hook handler raises, the module body raises the same
    exception where the hook handler stopped, and no [set_result] event is
    among the lines printed.  The merge engine is the one of the
    specification, [quiet], which prints nothing. *)
Theorem no_set_result_when_run_raises (argv : list string) (w w' : World)
    (e : exn) :
  run (quiet merge) json_loads argv w = (Raise e, w') ->
  main (quiet merge) json_loads argv w = (Raise e, w')
  /\ exists lines, stdout w' = stdout w ++ lines /\ count_set_result lines = 0.
Proof.
  intros E. split; [by rewrite main_eq, E|].
  pose proof (run_no_result_yet argv w) as H. by rewrite E in H.
Qed.
End HookHandler.

(** ** The program on sample instances *)

Lemma sample_fs_holding_empty (name : string) :
  sample_fs !! (packs_dir ++ ["unwelded"; name]) = None.
Proof.
  unfold sample_fs. apply not_elem_of_list_to_map. simpl.
  repeat (apply not_elem_of_cons; split; [discriminate|]).
  apply not_elem_of_nil.
Qed.

(** C2.  After the quarantine of the sample directory the holding
    directory lists [a.zip], which lies at [unwelded/a.zip]; the merge engine
    is called with the pack path [a.zip] directly in the content directory,
    where nothing lies any more, and with the output set to the content
    directory: the names are those of the holding directory, the paths are
    not. *)
Theorem merge_engine_gets_loose_paths :
  let w' := snd (weld_dir (quiet weld_names) packs_dir (world_of sample_fs)) in
  children (fs w') (packs_dir ++ ["unwelded"]) = ["a.zip"]
  /\ fs w' !! (packs_dir ++ ["unwelded"; "a.zip"]) = Some (File "A")
  /\ weld_calls w'
     = [mkWeldCall [packs_dir ++ ["a.zip"]]
                   [("output", "/inst/resourcepacks")] packs_dir]
  /\ fs w' !! (packs_dir ++ ["a.zip"]) = None.
Proof. vm_compute. split_and!; reflexivity. Qed.

(** C3.  A client without a datapack folder, with the saves [A] and [B]:
    the saves are found, and the first of them makes the lookup of [join] on
    the path raise [AttributeError]; no list of directories is returned, and
    the hook handler stops after its first two lines. *)
Theorem client_saves_raise_AttributeError :
  let w := world_of saves_fs in
  let arg := context "full" "client" JNull in
  os_walk_dirnames ["/"; "inst"; "saves"] w = (Ok ["A"; "B"], w)
  /\ datapack_dirs_of arg ["/"; "inst"] w = (Raise AttributeError, w)
  /\ fst (run (quiet weld_names) (loads_table sample_contexts)
              ["main.py"; "on_instance_setup"; json_dumps arg] w)
     = Raise AttributeError.
Proof. vm_compute. split_and!; reflexivity. Qed.

(** The engine [weld_cat] is deterministic: the merged pack is a function
    of the packs it is handed and of what lies at their paths. *)
Lemma weld_cat_reads_packs (packs : list Path)
    (config config' : list (string * string)) (directory directory' : Path)
    (f1 f2 : gmap Path node) :
  (forall p, p ∈ packs -> f1 !! p = f2 !! p) ->
  weld_cat packs config directory f1 = weld_cat packs config' directory' f2.
Proof.
  intros H. unfold weld_cat. do 3 f_equal.
  apply map_ext_in. intros p Hin%list_elem_of_In.
  unfold pack_text. by rewrite (H p Hin).
Qed.


(** A file with the reserved pattern in its name that is not the merged
    pack stays loose: non-loss in the words of the specification fails on the
    sample directory. *)
Lemma reserved_pattern_file_stays_loose :
  ~ non_loss_as_stated (quiet weld_names) packs_dir (world_of sample_fs).
Proof.
  intros H.
  destruct (H "my_weld_pack_backup.zip" "B") as [H1 _]; [done|reflexivity|].
  vm_compute in H1. discriminate.
Qed.

(** A merge engine that raises when it is left raises after the save:
    the pass raises with the merged pack written, and failure atomicity in
    the words of the specification fails on the sample directory. *)
Lemma exit_failure_leaves_merged_pack :
  ~ failure_atomic_as_stated weld_exit_broken packs_dir (world_of sample_fs).
Proof.
  intros H.
  pose proof (H (snd (weld_dir_quarantine packs_dir (world_of sample_fs)))
                (Exception "exit failed")
                (snd (weld_dir weld_exit_broken packs_dir (world_of sample_fs)))
                ltac:(vm_compute; reflexivity) ltac:(vm_compute; reflexivity))
    as H1.
  vm_compute in H1. discriminate.
Qed.

(** The line printed is not the line with the object as payload. *)
Lemma set_result_line_not_object :
  stdout (snd (report_result (world_of ∅))) ≠ [set_result_line_as_object].
Proof. vm_compute. discriminate. Qed.

Lemma quarantine_non_loss_witness :
  (exists wq, weld_dir_quarantine packs_dir (world_of sample_fs) = (Ok tt, wq))
  /\ forall name data,
       fs (world_of sample_fs) !! (packs_dir ++ [name]) = Some (File data) ->
       contains "weld_pack" name = false ->
       let w' := snd (weld_dir (quiet weld_names) packs_dir (world_of sample_fs)) in
       fs w' !! (packs_dir ++ ["unwelded"; name]) = Some (File data)
       /\ fs w' !! (packs_dir ++ [name]) = None.
Proof.
  apply (quarantine_non_loss weld_names packs_dir (world_of sample_fs)).
  - reflexivity.
  - left. reflexivity.
  - intros name data _ _.
    change (sample_fs !! (packs_dir ++ ["unwelded"; name]) ≠ Some Dir).
    rewrite sample_fs_holding_empty. discriminate.
Defined.

Lemma merge_failure_keeps_quarantine_witness :
  let w := world_of sample_fs in
  let wq := snd (weld_dir_quarantine packs_dir w) in
  (exists w',
     weld_dir (with_cache weld_broken) packs_dir w
     = (Raise (Exception "weld failed"), w')
     /\ fs w' = <[packs_dir ++ [".beet_cache"] := Dir]> (fs wq)
     /\ fs w' !! (packs_dir ++ ["weld_pack.zip"])
        = fs w !! (packs_dir ++ ["weld_pack.zip"])
     /\ fs w' !! (packs_dir ++ ["unwelded"; "a.zip"]) = Some (File "A"))
  /\ (exists w',
        weld_dir weld_exit_broken packs_dir w
        = (Raise (Exception "exit failed"), w')
        /\ fs w' = <[packs_dir ++ ["weld_pack.zip"]
                      := File "merged:/inst/resourcepacks/a.zip"]> (fs wq)).
Proof.
  intros w wq. split.
  - destruct (merge_failure_keeps_quarantine (with_cache weld_broken) packs_dir
                w wq ltac:(vm_compute; reflexivity))
      as (call & (Hdir & _ & _) & _ & Hfail & _).
    destruct (Hfail (Exception "weld failed")
                    (<[packs_dir ++ [".beet_cache"] := Dir]> (fs wq))
                    ["building the cache"])
      as (w' & E & Hfs & Hart & Hheld).
    { unfold with_cache, weld_broken. by rewrite Hdir. }
    exists w'. split_and!; [done|done| |].
    + apply Hart. vm_compute. reflexivity.
    + apply Hheld; vm_compute; reflexivity.
  - destruct (merge_failure_keeps_quarantine weld_exit_broken packs_dir
                w wq ltac:(vm_compute; reflexivity))
      as (call & (_ & _ & Hpacks) & _ & _ & Hleave).
    apply Permutation_singleton_r in Hpacks.
    eapply Hleave.
    + unfold weld_exit_broken. rewrite Hpacks. reflexivity.
    + reflexivity.
    + reflexivity.
Defined.

Lemma weld_pack_entry_stays_loose_witness :
  let name := "my_weld_pack_backup.zip" in
  let w := world_of sample_fs in
  let wq := snd (weld_dir_quarantine packs_dir w) in
  let w' := snd (weld_dir (quiet weld_names) packs_dir w) in
  fs w' !! (packs_dir ++ ["unwelded"; name])
  = fs w !! (packs_dir ++ ["unwelded"; name])
  /\ (is_Some (fs w !! (packs_dir ++ [name]))
      -> is_Some (fs w' !! (packs_dir ++ [name])))
  /\ (name ≠ "weld_pack.zip"
      -> fs w' !! (packs_dir ++ [name]) = fs w !! (packs_dir ++ [name]))
  /\ fs wq !! (packs_dir ++ [name]) = fs w !! (packs_dir ++ [name]).
Proof.
  apply (weld_pack_entry_stays_loose weld_names packs_dir
           "my_weld_pack_backup.zip" (world_of sample_fs)).
  reflexivity.
Defined.

Lemma one_set_result_after_run_witness :
  let w := world_of sample_fs in
  exists lines,
    stdout w = stdout w ++ lines
    /\ main (quiet weld_names) (loads_table sample_contexts)
            ["main.py"; "on_instance_stop"] w
       = (Ok tt, mkWorld (fs w) (stdout w ++ lines ++ [set_result_line])
                         (weld_calls w))
    /\ is_set_result set_result_line = true
    /\ count_set_result (lines ++ [set_result_line]) = 1.
Proof.
  apply (one_set_result_after_run weld_names (loads_table sample_contexts)
           ["main.py"; "on_instance_stop"] (world_of sample_fs)).
  reflexivity.
Defined.

Lemma shallow_is_noop_witness :
  let w := world_of sample_fs in
  main (quiet weld_names) (loads_table sample_contexts)
       ["main.py"; "on_instance_setup";
        json_dumps (context "shallow" "client" JNull)] w
  = (Ok tt, mkWorld (fs w) (stdout w ++ [set_result_line]) (weld_calls w))
  /\ count_set_result [set_result_line] = 1.
Proof.
  apply (shallow_is_noop (quiet weld_names) (loads_table sample_contexts) "main.py"
           (json_dumps (context "shallow" "client" JNull)) []
           [("update_depth", JStr "shallow"); ("game_dir", JStr "/inst");
            ("side", JStr "client");
            ("config", JObj [("datapack_folder", JNull)])]).
  - vm_compute. reflexivity.
  - reflexivity.
Defined.

Lemma no_set_result_when_run_raises_witness :
  let w := world_of sample_fs in
  let argv := ["main.py"; "on_instance_setup"; "{"] in
  main (quiet weld_names) (loads_table sample_contexts) argv w
  = (Raise JSONDecodeError, w)
  /\ exists lines, stdout w = stdout w ++ lines /\ count_set_result lines = 0.
Proof.
  apply (no_set_result_when_run_raises weld_names (loads_table sample_contexts)
           ["main.py"; "on_instance_setup"; "{"] (world_of sample_fs)).
  reflexivity.
Defined.


(** * More of the merge pass *)

(** ** What a computation can raise *)

Lemma raises_only_ret {A} (P : exn -> Prop) (a : A) : raises_only P (ret a).
Proof. by intros w e w'. Qed.

Lemma raises_only_bind {A B} (P : exn -> Prop) (c : M A) (k : A -> M B) :
  raises_only P c -> (forall a, raises_only P (k a)) -> raises_only P (bind c k).
Proof.
  intros Hc Hk w e w'. unfold bind.
  destruct (c w) as [[a|e1] w1] eqn:E.
  - apply Hk.
  - intros [= <- <-]. by eapply Hc.
Qed.

Lemma raises_only_for_ {A} (P : exn -> Prop) (l : list A) (body : A -> M unit) :
  (forall x, raises_only P (body x)) -> raises_only P (for_ l body).
Proof.
  intros H. induction l as [|x l IH]; simpl.
  - apply raises_only_ret.
  - apply raises_only_bind; [apply H|]. intros _. apply IH.
Qed.

Lemma quarantine_entry_raises (dir : Path) (entry : string) :
  raises_only (fun e => e = OSError)
              (quarantine_entry dir (joinpath dir "unwelded") entry).
Proof.
  intros w e w' E. destruct (quarantine_entry_cases dir entry w) as [_ H].
  rewrite E in H. simpl in H.
  destruct H as [(? & _)|(_ & d & _ & [(? & _)|(? & _)])]; congruence.
Qed.

(** The first half raises nothing but [OSError]. *)
Lemma weld_dir_quarantine_raises (dir : Path) :
  raises_only (fun e => e = OSError) (weld_dir_quarantine dir).
Proof.
  unfold weld_dir_quarantine.
  apply raises_only_bind; [by intros w e w'|]. intros b.
  apply raises_only_bind.
  { destruct b; [apply raises_only_ret|].
    intros w e w'. unfold os_mkdir. repeat case_match; congruence. }
  intros _. apply raises_only_bind.
  { intros w e w'. unfold os_listdir. repeat case_match; congruence. }
  intros entries. apply raises_only_for_. intros x. apply quarantine_entry_raises.
Qed.

(** ** Frames of the merge pass *)

Lemma under_None_ne (dir p rest : Path) : under dir p = None -> p ≠ dir ++ rest.
Proof. intros H ->. by rewrite under_app in H. Qed.

Lemma os_mkdir_keeps_dir (p q : Path) : preserves (keeps_dir p) (os_mkdir q).
Proof.
  intros w Hp. unfold os_mkdir. repeat case_match; simpl; try done.
  destruct (decide (q = p)) as [->|Hne].
  - apply lookup_insert_eq.
  - by rewrite lookup_insert_ne.
Qed.

Lemma weld_dir_quarantine_keeps_dir (dir : Path) (name : string) :
  preserves (keeps_dir (dir ++ [name])) (weld_dir_quarantine dir).
Proof.
  unfold weld_dir_quarantine.
  step_bind; [step_pure|]. step_bind.
  { step_if; [step_pure|apply os_mkdir_keeps_dir]. }
  step_bind; [step_pure|]. apply quarantine_loop_keeps_dir.
Qed.

#[global] Instance kept_while_not_loose_preorder (loose held : Path) :
  PreOrder (kept_while_not_loose loose held).
Proof.
  split.
  - by intros w H.
  - intros x y z Hxy Hyz H. destruct (Hxy H) as [H1 E1].
    destruct (Hyz H1) as [H2 E2]. split; [done|congruence].
Qed.

Lemma quarantine_entry_kept (dir : Path) (name entry : string) :
  preserves (kept_while_not_loose (dir ++ [name]) (dir ++ ["unwelded"; name]))
            (quarantine_entry dir (joinpath dir "unwelded") entry).
Proof.
  intros w Hnot.
  pose proof (quarantine_entry_no_new_file dir name entry w) as Hnew.
  unfold no_new_file in Hnew. split.
  { intros data Hf. by apply (Hnot data), Hnew. }
  destruct (quarantine_entry_cases dir entry w)
    as [_ [(_ & -> & _)|(Hc & d & Hd & [(_ & [[_ ->]|[_ ->]])|(_ & _ & ->)])]];
    try done.
  all: assert (entry ≠ name) as Hne by (intros ->; by apply (Hnot d)).
  all: assert (dir ++ ["unwelded"; entry] ≠ dir ++ ["unwelded"; name]) as Ht
         by (intros H; apply app_inv_head in H; congruence).
  - by rewrite lookup_delete_ne.
  - rewrite lookup_insert_ne by done.
    rewrite lookup_delete_ne by apply entry_ne_deeper.
    by rewrite lookup_delete_ne.
Qed.

Lemma os_mkdir_kept (dir : Path) (name : string) :
  preserves (kept_while_not_loose (dir ++ [name]) (dir ++ ["unwelded"; name]))
            (os_mkdir (dir ++ ["unwelded"])).
Proof.
  intros w Hnot. split.
  - intros data Hf. apply (Hnot data).
    by apply (os_mkdir_no_new_file (dir ++ [name]) (dir ++ ["unwelded"]) w).
  - apply os_mkdir_same_at. intros H. apply app_inv_head in H. discriminate.
Qed.

Lemma weld_dir_quarantine_kept (dir : Path) (name : string) :
  preserves (kept_while_not_loose (dir ++ [name]) (dir ++ ["unwelded"; name]))
            (weld_dir_quarantine dir).
Proof.
  unfold weld_dir_quarantine.
  step_bind; [step_pure|]. step_bind.
  { step_if; [step_pure|apply os_mkdir_kept]. }
  step_bind; [step_pure|].
  apply preserves_for_; [apply _|]. intros. apply quarantine_entry_kept.
Qed.

Section MergeFrames.
Variable run_weld : RunWeld.
Variable merge : Merge.

Lemma weld_dir_same_at (dir p : Path) :
  p ≠ dir ++ ["unwelded"] ->
  p ≠ dir ++ ["weld_pack.zip"] ->
  (forall name, contains "weld_pack" name = true
                \/ (p ≠ dir ++ [name] /\ p ≠ dir ++ ["unwelded"; name])) ->
  preserves (same_at p) (weld_dir (quiet merge) dir).
Proof.
  intros H1 H2 H3. unfold weld_dir. step_bind.
  - by apply weld_dir_quarantine_same_at.
  - by apply weld_dir_weld_same_at.
Qed.

(** X1.  A content directory that is missing, or is a regular file, makes
    [weld_dir] raise [OSError] at once: nothing is created, moved, printed
    or merged. *)
Theorem weld_dir_not_a_directory (dir : Path) (w : World) :
  fs w !! dir ≠ Some Dir ->
  weld_dir run_weld dir w = (Raise OSError, w).
Proof.
  intros Hdir. rewrite weld_dir_eq.
  unfold weld_dir_quarantine, bind, Path_exists, os_mkdir, os_listdir, ret.
  simpl. rewrite parent_joinpath.
  destruct (fs w !! joinpath dir "unwelded") as [nd|] eqn:Hunw.
  - rewrite bool_decide_eq_true_2 by eauto.
    destruct (fs w !! dir) as [[|]|] eqn:Hd;
      [reflexivity|by destruct Hdir|reflexivity].
  - rewrite bool_decide_eq_false_2 by (by intros [? ?]).
    destruct (fs w !! dir) as [[|]|] eqn:Hd; rewrite ?Hunw;
      [reflexivity|by destruct Hdir|reflexivity].
Qed.

(** X2.  The pass changes nothing outside the content directory, and the
    content directory itself stays the directory it was.  The merge engine
    is the one of the specification, [quiet], which changes nothing of its
    own. *)
Theorem weld_dir_outside (dir p : Path) (w : World) :
  under dir p = None \/ p = dir ->
  fs (snd (weld_dir (quiet merge) dir w)) !! p = fs w !! p.
Proof.
  intros Hp. apply weld_dir_same_at.
  - destruct Hp as [Hp| ->]; [by apply under_None_ne|apply path_ne_below].
  - destruct Hp as [Hp| ->]; [by apply under_None_ne|apply path_ne_below].
  - intros name. right.
    destruct Hp as [Hp| ->]; split;
      [by apply under_None_ne..|apply path_ne_below|apply path_ne_below].
Qed.

(** X3.  A subdirectory of the content directory is never moved or removed,
    the holding directory included; only an entry named [weld_pack.zip] is
    overwritten by the merged pack.  The merge engine is the one of the
    specification, [quiet], which changes nothing of its own. *)
Theorem weld_dir_keeps_directories (dir : Path) (name : string) (w : World) :
  fs w !! (dir ++ [name]) = Some Dir ->
  name ≠ "weld_pack.zip" ->
  fs (snd (weld_dir (quiet merge) dir w)) !! (dir ++ [name]) = Some Dir.
Proof.
  intros Hd Hname. rewrite weld_dir_eq.
  pose proof (weld_dir_quarantine_keeps_dir dir name w Hd) as Hq.
  destruct (weld_dir_quarantine dir w) as [[[]|e] wq]; [|done].
  simpl in Hq. rewrite <- Hq. apply weld_dir_weld_same_at.
  intros H. apply app_inv_head in H. congruence.
Qed.

(** X4.  What the holding directory already holds under a name persists
    over a pass, unless a regular file of that name lies loose in the
    content directory (which then takes its place).  The merge engine is
    the one of the specification, [quiet], which changes nothing of its
    own. *)
Theorem weld_dir_keeps_quarantined (dir : Path) (name : string) (w : World) :
  (forall data, fs w !! (dir ++ [name]) ≠ Some (File data)) ->
  fs (snd (weld_dir (quiet merge) dir w)) !! (dir ++ ["unwelded"; name])
  = fs w !! (dir ++ ["unwelded"; name]).
Proof.
  intros Hnot. rewrite weld_dir_eq.
  destruct (weld_dir_quarantine_kept dir name w Hnot) as [_ Hq].
  destruct (weld_dir_quarantine dir w) as [[[]|e] wq]; [|done].
  simpl in Hq. rewrite <- Hq. apply weld_dir_weld_same_at.
  intros H. symmetry in H. by apply entry_ne_deeper in H.
Qed.
End MergeFrames.

(** ** Outcomes of the merge pass *)

(** The turn for a loose file whose place in the holding directory is
    taken by a directory: [os.remove] refuses, nothing changes. *)
Lemma quarantine_entry_collision (dir : Path) (entry data : string) (w : World) :
  contains "weld_pack" entry = false ->
  fs w !! (dir ++ [entry]) = Some (File data) ->
  fs w !! (dir ++ ["unwelded"; entry]) = Some Dir ->
  quarantine_entry dir (joinpath dir "unwelded") entry w = (Raise OSError, w).
Proof.
  intros Hc Hsrc Htgt. unfold quarantine_entry. rewrite Hc, holding_path.
  unfold bind, Path_is_file, Path_exists, os_remove.
  change (joinpath dir entry) with (dir ++ [entry]).
  rewrite Hsrc. simpl. rewrite Htgt.
  rewrite bool_decide_eq_true_2 by eauto. simpl. by rewrite Htgt.
Qed.

(** A loop that meets such a file does not return, and leaves both the
    file and the directory where they are. *)
Lemma quarantine_loop_collision (dir : Path) (name data : string)
    (l : list string) (w : World) :
  name ∈ l ->
  contains "weld_pack" name = false ->
  fs w !! (dir ++ [name]) = Some (File data) ->
  fs w !! (dir ++ ["unwelded"; name]) = Some Dir ->
  exists w',
    for_ l (quarantine_entry dir (joinpath dir "unwelded")) w = (Raise OSError, w')
    /\ fs w' !! (dir ++ [name]) = Some (File data)
    /\ fs w' !! (dir ++ ["unwelded"; name]) = Some Dir.
Proof.
  revert w. induction l as [|x l IH]; intros w Hin Hc Hsrc Htgt.
  { by apply elem_of_nil in Hin. }
  rewrite for_cons.
  destruct (decide (x = name)) as [->|Hx].
  { rewrite (quarantine_entry_collision dir name data) by done. eauto. }
  apply elem_of_cons in Hin as [?|Hin]; [done|].
  pose proof (quarantine_entry_same_at dir (dir ++ [name]) x) as P1.
  pose proof (quarantine_entry_same_at dir (dir ++ ["unwelded"; name]) x) as P2.
  specialize (P1 ltac:(right; split;
    [intros H; apply app_inv_head in H; congruence|apply entry_ne_deeper]) w).
  specialize (P2 ltac:(right; split;
    [intros H; symmetry in H; by apply entry_ne_deeper in H
    |intros H; apply app_inv_head in H; congruence]) w).
  unfold same_at in P1, P2.
  destruct (quarantine_entry dir (joinpath dir "unwelded") x w)
    as [[[]|e] w1] eqn:E1; simpl in P1, P2.
  - apply IH; [done..|congruence|congruence].
  - apply quarantine_entry_raises in E1 as ->. exists w1.
    split_and!; [done|congruence..].
Qed.

Section MergeOutcomes.
Variable run_weld : RunWeld.

(** X5.  When [weld_dir] returns, the quarantine had returned and the merge
    engine was entered exactly once, with the content directory as its
    working directory and its output and with the names of the holding
    directory, joined onto the content directory, as its packs.  The engine
    had handed back its context, and then either the save at
    [weld_pack.zip] returned and the engine was left without an exception
    and returned, or the save raised and the engine, left with that
    exception, swallowed it.  The file system is the one that leaving the
    engine left, and the lines printed are those of the library. *)
Theorem weld_dir_Ok_inv (dir : Path) (w w' : World) :
  weld_dir run_weld dir w = (Ok tt, w') ->
  exists wq call ctx f1 out1 f2 out2 out3,
    weld_dir_quarantine dir w = (Ok tt, wq)
    /\ is_weld_call dir (fs wq) call
    /\ weld_calls w' = weld_calls w ++ [call]
    /\ run_weld (call_packs call) (call_config call) (call_directory call) (fs wq)
       = (Ok ctx, f1, out1)
    /\ ((ctx_data_save ctx (dir ++ ["weld_pack.zip"]) f1 = (Ok tt, f2, out2)
         /\ exists b, leave ctx None f2 = (Ok b, fs w', out3))
        \/ (exists e,
              ctx_data_save ctx (dir ++ ["weld_pack.zip"]) f1 = (Raise e, f2, out2)
              /\ leave ctx (Some e) f2 = (Ok true, fs w', out3)))
    /\ stdout w' = stdout w ++ out1 ++ out2 ++ out3.
Proof.
  rewrite weld_dir_eq. intros E.
  pose proof (weld_dir_quarantine_fs_only dir w) as [Hout Hcalls].
  destruct (weld_dir_quarantine dir w) as [[[]|e] wq] eqn:Eq; [|done].
  simpl in Hout, Hcalls.
  rewrite weld_dir_weld_unfold, (weld_dir_quarantine_Ok_holding dir w wq Eq) in E.
  cbv zeta in E. exists wq, (listed_call dir (fs wq)).
  destruct (run_weld _ _ _ (fs wq)) as [[[ctx|e] f1] out1] eqn:Ew; [|done].
  exists ctx, f1, out1.
  destruct (ctx_data_save ctx _ f1) as [[[[]|e] f2] out2] eqn:Es.
  - destruct (leave ctx None f2) as [[[b|e] f3] out3] eqn:El; [|done].
    injection E as <-. exists f2, out2, out3. simpl.
    split_and!; [done|apply listed_call_is_weld_call|by rewrite Hcalls|done
                |left; eauto|by rewrite Hout, <- !app_assoc].
  - destruct (leave ctx (Some e) f2) as [[[[|]|e'] f3] out3] eqn:El; [|done..].
    injection E as <-. exists f2, out2, out3. simpl.
    split_and!; [done|apply listed_call_is_weld_call|by rewrite Hcalls|done
                |right; eauto|by rewrite Hout, <- !app_assoc].
Qed.

(** X6.  When [weld_dir] raises, it raises [OSError] out of the quarantine
    and the merge engine was never entered, or the quarantine had returned
    and the engine was entered exactly once.  In that case the engine
    raised when it was entered, and nothing was saved; or it raised when it
    was left, after the save; or the save raised and the engine, left with
    that exception, did not swallow it or raised another.  The file system
    is the one the last of these steps left. *)
Theorem weld_dir_Raise_inv (dir : Path) (w w' : World) (e : exn) :
  weld_dir run_weld dir w = (Raise e, w') ->
  (e = OSError /\ weld_dir_quarantine dir w = (Raise OSError, w')
   /\ weld_calls w' = weld_calls w)
  \/ exists wq call,
       weld_dir_quarantine dir w = (Ok tt, wq)
       /\ is_weld_call dir (fs wq) call
       /\ weld_calls w' = weld_calls w ++ [call]
       /\ ((exists out1,
              run_weld (call_packs call) (call_config call) (call_directory call)
                       (fs wq) = (Raise e, fs w', out1))
           \/ exists ctx f1 out1 f2 out2 out3,
                run_weld (call_packs call) (call_config call)
                         (call_directory call) (fs wq) = (Ok ctx, f1, out1)
                /\ ((ctx_data_save ctx (dir ++ ["weld_pack.zip"]) f1
                     = (Ok tt, f2, out2)
                     /\ leave ctx None f2 = (Raise e, fs w', out3))
                    \/ exists e0,
                         ctx_data_save ctx (dir ++ ["weld_pack.zip"]) f1
                         = (Raise e0, f2, out2)
                         /\ (leave ctx (Some e0) f2 = (Raise e, fs w', out3)
                             \/ (e = e0
                                 /\ leave ctx (Some e0) f2
                                    = (Ok false, fs w', out3))))).
Proof.
  rewrite weld_dir_eq. intros E.
  pose proof (weld_dir_quarantine_fs_only dir w) as [Hout Hcalls].
  destruct (weld_dir_quarantine dir w) as [[[]|e1] wq] eqn:Eq;
    simpl in Hout, Hcalls.
  2: { left. injection E as <- <-.
       by rewrite (weld_dir_quarantine_raises dir w e1 wq Eq) in *. }
  right. exists wq, (listed_call dir (fs wq)).
  rewrite weld_dir_weld_unfold, (weld_dir_quarantine_Ok_holding dir w wq Eq) in E.
  cbv zeta in E.
  destruct (run_weld _ _ _ (fs wq)) as [[[ctx|e2] f1] out1] eqn:Ew.
  2: { injection E as <- <-. simpl.
       split_and!; [done|apply listed_call_is_weld_call|by rewrite Hcalls|].
       left. eauto. }
  destruct (ctx_data_save ctx _ f1) as [[[[]|e0] f2] out2] eqn:Es.
  - destruct (leave ctx None f2) as [[[b|e3] f3] out3] eqn:El; [done|].
    injection E as <- <-. simpl.
    split_and!; [done|apply listed_call_is_weld_call|by rewrite Hcalls|].
    right. exists ctx, f1, out1, f2, out2, out3. split; [done|]. left. done.
  - destruct (leave ctx (Some e0) f2) as [[[[|]|e3] f3] out3] eqn:El; [done| |].
    + injection E as <- <-. simpl.
      split_and!; [done|apply listed_call_is_weld_call|by rewrite Hcalls|].
      right. exists ctx, f1, out1, f2, out2, out3. split; [done|].
      right. exists e0. auto.
    + injection E as <- <-. simpl.
      split_and!; [done|apply listed_call_is_weld_call|by rewrite Hcalls|].
      right. exists ctx, f1, out1, f2, out2, out3. split; [done|].
      right. exists e0. auto.
Qed.

(** X7.  A regular file in the place of the holding directory makes the
    pass raise [OSError]: the merge engine is not called. *)
Theorem weld_dir_holding_is_file (dir : Path) (data : string) (w : World) :
  fs w !! (dir ++ ["unwelded"]) = Some (File data) ->
  exists w',
    weld_dir run_weld dir w = (Raise OSError, w')
    /\ weld_calls w' = weld_calls w.
Proof.
  intros Hfile. rewrite weld_dir_eq.
  pose proof (weld_dir_quarantine_fs_only dir w) as [_ Hcalls].
  destruct (weld_dir_quarantine dir w) as [[[]|e] wq] eqn:Eq;
    simpl in Hcalls.
  - exfalso.
    unfold weld_dir_quarantine, bind, Path_exists, os_listdir, ret in Eq.
    change (joinpath dir "unwelded") with (dir ++ ["unwelded"]) in Eq.
    simpl in Eq. rewrite bool_decide_eq_true_2 in Eq by eauto.
    destruct (fs w !! dir) as [[|]|]; [done| |done].
    eapply (quarantine_loop_holding_file dir (children (fs w) dir) w wq data);
      [exact Eq| |exact Hfile].
    apply elem_of_children. eauto.
  - rewrite (weld_dir_quarantine_raises dir w e wq Eq). eauto.
Qed.

(** X8.  A directory in the holding directory under the name of a loose
    regular file makes the pass raise [OSError]: the directory is not
    removed, the file stays loose and the merge engine is not called. *)
Theorem weld_dir_collision (dir : Path) (name data : string) (w : World) :
  fs w !! dir = Some Dir ->
  fs w !! (dir ++ ["unwelded"]) = Some Dir ->
  contains "weld_pack" name = false ->
  fs w !! (dir ++ [name]) = Some (File data) ->
  fs w !! (dir ++ ["unwelded"; name]) = Some Dir ->
  exists w',
    weld_dir run_weld dir w = (Raise OSError, w')
    /\ fs w' !! (dir ++ [name]) = Some (File data)
    /\ fs w' !! (dir ++ ["unwelded"; name]) = Some Dir
    /\ weld_calls w' = weld_calls w.
Proof.
  intros Hdir Hunw Hc Hsrc Htgt.
  destruct (quarantine_loop_collision dir name data (children (fs w) dir) w)
    as (w' & Eloop & H1 & H2); [|done..|].
  { apply elem_of_children. eauto. }
  assert (weld_dir_quarantine dir w = (Raise OSError, w')) as Eq.
  { unfold weld_dir_quarantine, bind, Path_exists, os_listdir, ret.
    change (joinpath dir "unwelded") with (dir ++ ["unwelded"]) in *.
    simpl. rewrite bool_decide_eq_true_2 by eauto. by rewrite Hdir. }
  pose proof (weld_dir_quarantine_fs_only dir w) as [_ Hcalls].
  rewrite Eq in Hcalls. exists w'. by rewrite weld_dir_eq, Eq.
Qed.
End MergeOutcomes.

(** * More of the hook handler *)

(** ** Where the datapacks are *)

(** X9.  With a datapack folder set in the configuration, the datapacks are
    in that one folder under the game directory, whatever the side (which is
    not even looked up) and whatever the file system holds. *)
Theorem datapack_dirs_override (fields cfg : list (string * json))
    (folder : string) (game_dir : Path) (w : World) :
  dict_get "config" fields = Some (JObj cfg) ->
  dict_get "datapack_folder" cfg = Some (JStr folder) ->
  datapack_dirs_of (JObj fields) game_dir w
  = (Ok [joinpath_str game_dir folder], w).
Proof.
  intros Hcfg Hfolder. unfold datapack_dirs_of, bind, getitem.
  rewrite Hcfg. simpl. by rewrite Hfolder.
Qed.

(** X10.  Without a datapack folder, every side other than ["client"] has
    its datapacks in [world/datapacks] under the game directory, whatever
    saves the file system holds. *)
Theorem datapack_dirs_server (fields cfg : list (string * json)) (side : json)
    (game_dir : Path) (w : World) :
  dict_get "config" fields = Some (JObj cfg) ->
  dict_get "datapack_folder" cfg = Some JNull ->
  dict_get "side" fields = Some side ->
  eq_str side "client" = false ->
  datapack_dirs_of (JObj fields) game_dir w
  = (Ok [game_dir ++ ["world"; "datapacks"]], w).
Proof.
  intros Hcfg Hfolder Hside Hne. unfold datapack_dirs_of, bind, getitem.
  rewrite Hcfg. simpl. rewrite Hfolder. simpl. rewrite Hside. simpl.
  rewrite Hne. simpl. unfold joinpath. by rewrite <- app_assoc.
Qed.

Section ClientSaves.
Variables (fields cfg : list (string * json)) (game_dir : Path) (w : World).
Hypothesis Hcfg : dict_get "config" fields = Some (JObj cfg).
Hypothesis Hfolder : dict_get "datapack_folder" cfg = Some JNull.
Hypothesis Hside : dict_get "side" fields = Some (JStr "client").

Lemma datapack_dirs_client_eq :
  datapack_dirs_of (JObj fields) game_dir w
  = match os_walk_dirnames (game_dir ++ ["saves"]) w with
    | (Ok [], _) => (Ok [], w)
    | (Ok (_ :: _), _) => (Raise AttributeError, w)
    | (Raise e, _) => (Raise e, w)
    end.
Proof.
  unfold datapack_dirs_of, bind, getitem.
  rewrite Hcfg. simpl. rewrite Hfolder. simpl. rewrite Hside. simpl.
  change (joinpath game_dir "saves") with (game_dir ++ ["saves"]).
  pose proof (os_walk_dirnames_pure (game_dir ++ ["saves"]) w) as Hpure.
  destruct (os_walk_dirnames (game_dir ++ ["saves"]) w) as [[l|e] w1];
    simpl in Hpure; subst w1; [|done].
  by destruct l.
Qed.

(** X11.  A client without a datapack folder whose [saves] directory holds
    at least one directory gets no list of datapack directories at all: the
    first save makes the lookup of [join] on the path raise
    [AttributeError]. *)
Theorem datapack_dirs_client_save (name : string) :
  fs w !! (game_dir ++ ["saves"]) = Some Dir ->
  fs w !! (game_dir ++ ["saves"; name]) = Some Dir ->
  datapack_dirs_of (JObj fields) game_dir w = (Raise AttributeError, w).
Proof.
  intros Hsaves Hsave. rewrite datapack_dirs_client_eq.
  unfold os_walk_dirnames. rewrite Hsaves.
  destruct (filter _ _) as [|x l] eqn:E; [|done].
  exfalso. apply (not_elem_of_nil name). rewrite <- E.
  apply list_elem_of_filter. unfold joinpath. rewrite <- app_assoc. split; [done|].
  apply elem_of_children. rewrite <- app_assoc. eauto.
Qed.

(** X12.  A client without a datapack folder and with an existing [saves]
    directory that holds no directory has no datapack directory: the list
    is empty, and only the resource packs will be merged. *)
Theorem datapack_dirs_client_no_save :
  fs w !! (game_dir ++ ["saves"]) = Some Dir ->
  (forall name, fs w !! (game_dir ++ ["saves"; name]) ≠ Some Dir) ->
  datapack_dirs_of (JObj fields) game_dir w = (Ok [], w).
Proof.
  intros Hsaves Hnone. rewrite datapack_dirs_client_eq.
  unfold os_walk_dirnames. rewrite Hsaves.
  destruct (filter _ _) as [|x l] eqn:E; [done|exfalso].
  assert (x ∈ x :: l) as Hin by left. rewrite <- E in Hin.
  apply list_elem_of_filter in Hin as [Hdir _].
  apply (Hnone x). unfold joinpath in Hdir. by rewrite <- app_assoc in Hdir.
Qed.

(** X13.  A client without a datapack folder and without a [saves]
    directory makes the handler raise [StopIteration]: [os.walk] yields
    nothing and [next] has nothing to return. *)
Theorem datapack_dirs_client_no_saves_dir :
  fs w !! (game_dir ++ ["saves"]) ≠ Some Dir ->
  datapack_dirs_of (JObj fields) game_dir w = (Raise StopIteration, w).
Proof.
  intros Hsaves. rewrite datapack_dirs_client_eq. unfold os_walk_dirnames.
  destruct (fs w !! (game_dir ++ ["saves"])) as [[|]|]; [done| |done].
  by destruct Hsaves.
Qed.
End ClientSaves.

(** ** The lines and the calls of the hook handler *)

(** The directories are found from the file system alone. *)
Lemma datapack_dirs_of_fs (arg : json) (game_dir : Path) (w1 w2 : World) :
  fs w1 = fs w2 ->
  fst (datapack_dirs_of arg game_dir w1) = fst (datapack_dirs_of arg game_dir w2).
Proof.
  intros Hfs. unfold datapack_dirs_of, bind, getitem.
  destruct arg as [| | | | |?|fields]; try done.
  destruct (dict_get "config" fields) as [[| | | | |?|cfg]|]; try done.
  simpl. destruct (dict_get "datapack_folder" cfg) as [folder|]; [|done].
  simpl. destruct folder; try done.
  destruct (dict_get "side" fields) as [side|]; [|done].
  simpl. destruct (eq_str side "client"); [|done].
  unfold os_walk_dirnames. rewrite Hfs.
  destruct (fs w2 !! joinpath game_dir "saves") as [[|]|]; try done.
  by destruct (filter _ _).
Qed.

Section HookContext.
Variable run_weld : RunWeld.
Variable json_loads : string -> result json.

(** The handler on a full update, once the context is read. *)
Lemma run_full_eq (prog raw : string) (rest : list string)
    (fields : list (string * json)) (ud : json) (w : World) :
  json_loads raw = Ok (JObj fields) ->
  dict_get "update_depth" fields = Some ud ->
  eq_str ud "shallow" = false ->
  run run_weld json_loads (prog :: "on_instance_setup" :: raw :: rest) w
  = match dict_get "game_dir" fields with
    | Some (JStr g) =>
        let game_dir := Path_of_string g in
        match fst (datapack_dirs_of (JObj fields) game_dir w) with
        | Ok dirs =>
            (for_ dirs (weld_dir run_weld) ;;
             for_ [game_dir ++ ["resourcepacks"]] (weld_dir run_weld) ;;
             output "message" success_message ;;
             output "end_process" JNull) (started w)
        | Raise e => (Raise e, started w)
        end
    | Some _ => (Raise TypeError, started w)
    | None => (Raise KeyError, started w)
    end.
Proof.
  intros Hl Hud Hne. unfold run.
  rewrite (bind_Ok _ _ w "on_instance_setup" w) by reflexivity.
  rewrite String.eqb_refl. cbn [negb].
  rewrite (bind_Ok _ _ w raw w) by reflexivity.
  rewrite (bind_Ok _ _ w (JObj fields) w) by (by rewrite Hl).
  rewrite (bind_Ok _ _ w ud w) by (unfold getitem; by rewrite Hud).
  rewrite Hne.
  rewrite (bind_Ok (output "start_process" JNull) _ w tt
             (mkWorld (fs w) (stdout w ++ ["%_" +:+ dq +:+ "start_process" +:+ dq])
                      (weld_calls w))) by reflexivity.
  rewrite (bind_Ok (output "message" start_message) _ _ tt (started w)).
  2: { unfold started, started_lines. simpl. unfold print. simpl.
       by rewrite <- app_assoc. }
  destruct (dict_get "game_dir" fields) as [v|] eqn:Hg.
  2: { rewrite (bind_Raise _ _ (started w) KeyError (started w)); [done|].
       unfold getitem. by rewrite Hg. }
  rewrite (bind_Ok _ _ (started w) v (started w))
    by (unfold getitem; by rewrite Hg).
  destruct v as [| | | |g| |];
    try (rewrite (bind_Raise _ _ (started w) TypeError (started w)) by done;
         done).
  rewrite (bind_Ok _ _ (started w) (Path_of_string g) (started w)) by done.
  rewrite (datapack_dirs_of_fs _ _ w (started w)) by done.
  pose proof (datapack_dirs_of_pure (JObj fields) (Path_of_string g) (started w))
    as Hpure.
  destruct (datapack_dirs_of (JObj fields) (Path_of_string g) (started w))
    as [[dirs|e] w1] eqn:Ed; simpl in Hpure; subst w1.
  - by rewrite (bind_Ok _ _ (started w) dirs (started w)).
  - by rewrite (bind_Raise _ _ (started w) e (started w)).
Qed.

(** The handler up to the test of the update depth. *)
Lemma run_early_eq (prog raw : string) (rest : list string) (w : World) :
  run run_weld json_loads (prog :: "on_instance_setup" :: raw :: rest) w
  = match json_loads raw with
    | Raise e => (Raise e, w)
    | Ok (JObj fields) =>
        match dict_get "update_depth" fields with
        | None => (Raise KeyError, w)
        | Some ud =>
            if eq_str ud "shallow" then (Ok tt, w)
            else run run_weld json_loads
                     (prog :: "on_instance_setup" :: raw :: rest) w
        end
    | Ok _ => (Raise TypeError, w)
    end.
Proof.
  destruct (json_loads raw) as [arg|e] eqn:Hl.
  2: { unfold run.
       rewrite (bind_Ok _ _ w "on_instance_setup" w) by reflexivity.
       rewrite String.eqb_refl. cbn [negb].
       rewrite (bind_Ok _ _ w raw w) by reflexivity.
       by rewrite (bind_Raise _ _ w e w) by (by rewrite Hl). }
  assert (forall r,
            getitem arg "update_depth" w = (Raise r, w) ->
            run run_weld json_loads (prog :: "on_instance_setup" :: raw :: rest) w
            = (Raise r, w)) as Hraise.
  { intros r Hr. unfold run.
    rewrite (bind_Ok _ _ w "on_instance_setup" w) by reflexivity.
    rewrite String.eqb_refl. cbn [negb].
    rewrite (bind_Ok _ _ w raw w) by reflexivity.
    rewrite (bind_Ok _ _ w arg w) by (by rewrite Hl).
    by rewrite (bind_Raise _ _ w r w). }
  destruct arg as [| | | | | |fields]; try (by apply Hraise).
  destruct (dict_get "update_depth" fields) as [ud|] eqn:Hud.
  2: { apply Hraise. unfold getitem. by rewrite Hud. }
  destruct (eq_str ud "shallow") eqn:Hs; [|done].
  destruct ud as [| | | |s| |]; try done.
  by apply (run_shallow run_weld json_loads _ _ _ fields);
    [|rewrite Hud; f_equal; f_equal; apply String.eqb_eq in Hs].
Qed.

(** X16.  Started without a hook name, or with the hook [on_instance_setup]
    and no context, the program raises [IndexError]: nothing is printed,
    not even [set_result], and nothing is touched. *)
Theorem main_missing_arguments (argv : list string) (w : World) :
  (length argv <= 1 \/ argv !! 1 = Some "on_instance_setup" /\ length argv = 2) ->
  main run_weld json_loads argv w = (Raise IndexError, w).
Proof.
  intros H. rewrite main_eq.
  destruct argv as [|prog [|hook [|raw rest]]]; simpl in H; try done.
  - destruct H as [?|[[= ->] _]]; [lia|]. done.
  - destruct H as [?|[_ ?]]; lia.
Qed.

(** X17.  A context that cannot be read stops the program before anything
    is printed or touched: what [json.loads] raises is raised, a context
    that is no object raises [TypeError], and an object without
    [update_depth] raises [KeyError]. *)
Theorem main_context_unreadable (prog raw : string) (rest : list string)
    (w : World) :
  (forall fields, json_loads raw = Ok (JObj fields) ->
                  dict_get "update_depth" fields = None) ->
  main run_weld json_loads (prog :: "on_instance_setup" :: raw :: rest) w
  = (Raise match json_loads raw with
           | Raise e => e
           | Ok (JObj _) => KeyError
           | Ok _ => TypeError
           end, w).
Proof.
  intros H. rewrite main_eq, run_early_eq.
  destruct (json_loads raw) as [[| | | | | |fields]|e]; try done.
  by rewrite (H fields).
Qed.

(** X18.  For every hook but [on_instance_setup] the program prints the
    [set_result] line and nothing else, and touches nothing; the arguments
    after the hook name are not looked at. *)
Theorem main_other_hook (prog hook : string) (rest : list string) (w : World) :
  hook ≠ "on_instance_setup" ->
  main run_weld json_loads (prog :: hook :: rest) w
  = (Ok tt, mkWorld (fs w) (stdout w ++ [set_result_line]) (weld_calls w)).
Proof. intros H. by rewrite main_eq, run_other_hook. Qed.
End HookContext.

Section HookLines.
Variable merge : Merge.
Variable json_loads : string -> result json.

(** A pass with the engine of the specification that returns has printed
    nothing and has called the engine once, on its directory. *)
Lemma weld_dir_quiet_Ok (dir : Path) (w w' : World) :
  weld_dir (quiet merge) dir w = (Ok tt, w') ->
  stdout w' = stdout w
  /\ exists call,
       weld_calls w' = weld_calls w ++ [call] /\ call_directory call = dir.
Proof.
  rewrite weld_dir_eq. intros E.
  pose proof (weld_dir_quarantine_fs_only dir w) as [Hout Hcalls].
  destruct (weld_dir_quarantine dir w) as [[[]|e] wq] eqn:Eq; [|done].
  simpl in Hout, Hcalls. rewrite weld_dir_weld_eq in E.
  destruct (fs wq !! (dir ++ ["unwelded"])) as [[|]|]; [done| |done].
  cbv zeta in E. destruct (merge _ _ _ (fs wq)) as [data|e]; [|done].
  injection E as <-. simpl. split; [done|].
  eexists. by rewrite Hcalls.
Qed.

(** Welding a list of directories, one call each, in the order of the
    list. *)
Lemma for_weld_dir_Ok (dirs : list Path) (w w' : World) :
  for_ dirs (weld_dir (quiet merge)) w = (Ok tt, w') ->
  stdout w' = stdout w
  /\ exists calls,
       weld_calls w' = weld_calls w ++ calls
       /\ map call_directory calls = dirs.
Proof.
  revert w. induction dirs as [|dir dirs IH]; intros w E.
  { injection E as <-. split; [done|]. exists []. by rewrite app_nil_r. }
  rewrite for_cons in E.
  destruct (weld_dir (quiet merge) dir w) as [[[]|e] w1] eqn:E1; [|done].
  apply weld_dir_quiet_Ok in E1 as (Hout & call & Hcalls & Hdir).
  destruct (IH w1 E) as (Hout' & calls & Hc & Hd).
  split; [congruence|].
  exists (call :: calls). split.
  - rewrite Hc, Hcalls, <- app_assoc. done.
  - simpl. by rewrite Hd, Hdir.
Qed.

Lemma for_weld_dir_same_stdout (dirs : list Path) :
  preserves same_stdout (for_ dirs (weld_dir (quiet merge))).
Proof.
  apply preserves_for_; [apply _|]. intros. apply weld_dir_same_stdout.
Qed.

(** The merges and the two closing lines. *)
Lemma run_tail (dirs1 dirs2 : list Path) (w : World) :
  match (for_ dirs1 (weld_dir (quiet merge)) ;;
         for_ dirs2 (weld_dir (quiet merge)) ;;
         output "message" success_message ;;
         output "end_process" JNull) w with
  | (Ok _, w') =>
      stdout w' = stdout w ++ finished_lines
      /\ exists calls,
           weld_calls w' = weld_calls w ++ calls
           /\ map call_directory calls = dirs1 ++ dirs2
  | (Raise _, w') => stdout w' = stdout w
  end.
Proof.
  unfold bind.
  pose proof (for_weld_dir_same_stdout dirs1 w) as S1.
  destruct (for_ dirs1 (weld_dir (quiet merge)) w) as [[[]|e] w1] eqn:E1; [|done].
  apply for_weld_dir_Ok in E1 as (Hout1 & calls1 & Hc1 & Hd1).
  pose proof (for_weld_dir_same_stdout dirs2 w1) as S2.
  destruct (for_ dirs2 (weld_dir (quiet merge)) w1) as [[[]|e] w2] eqn:E2;
    [|unfold same_stdout in S2; simpl in S2; congruence].
  apply for_weld_dir_Ok in E2 as (Hout2 & calls2 & Hc2 & Hd2).
  simpl. split.
  - rewrite Hout2, Hout1, <- app_assoc. done.
  - exists (calls1 ++ calls2). rewrite Hc2, Hc1, <- app_assoc, map_app, Hd1, Hd2.
    done.
Qed.

(** X14.  The lines of the hook handler.  When it returns it has printed
    nothing (another hook, a shallow update) or its four lines in order:
    [start_process], the message that welding starts, the message of
    success, [end_process].  When it raises it has printed nothing or the
    first two of them only: the message of success and [end_process] are
    printed only after every directory has been merged.  The merge engine
    is the one of the specification, [quiet], which prints nothing. *)
Theorem run_lines (argv : list string) (w : World) :
  match run (quiet merge) json_loads argv w with
  | (Ok _, w') =>
      stdout w' = stdout w
      \/ stdout w' = stdout w ++ started_lines ++ finished_lines
  | (Raise _, w') =>
      stdout w' = stdout w \/ stdout w' = stdout w ++ started_lines
  end.
Proof.
  destruct argv as [|prog [|hook argv]]; [by left..|].
  destruct (decide (hook = "on_instance_setup")) as [->|Hne].
  2: { rewrite run_other_hook by done. by left. }
  destruct argv as [|raw rest].
  { unfold run. rewrite (bind_Ok _ _ w "on_instance_setup" w) by reflexivity.
    rewrite String.eqb_refl. cbn [negb].
    rewrite (bind_Raise _ _ w IndexError w) by reflexivity. by left. }
  rewrite run_early_eq.
  destruct (json_loads raw) as [arg|e] eqn:Hl; [|by left].
  destruct arg as [| | | | | |fields]; try (by left).
  destruct (dict_get "update_depth" fields) as [ud|] eqn:Hud; [|by left].
  destruct (eq_str ud "shallow") eqn:Hs; [by left|].
  rewrite (run_full_eq (quiet merge) json_loads prog raw rest fields ud w) by done.
  destruct (dict_get "game_dir" fields) as [[| | | |g| |]|]; try (by right).
  cbv zeta.
  destruct (fst (datapack_dirs_of (JObj fields) (Path_of_string g) w))
    as [dirs|e]; [|by right].
  pose proof (run_tail dirs [Path_of_string g ++ ["resourcepacks"]] (started w))
    as Htail.
  destruct ((for_ dirs (weld_dir (quiet merge)) ;; _) (started w)) as [[[]|e] w'].
  - right. destruct Htail as [-> _]. simpl. by rewrite <- app_assoc.
  - right. by rewrite Htail.
Qed.

(** X15.  A full update that the handler carries through.  The game
    directory was read from the context, the merge engine was called once
    for every datapack directory, in their order, and then once for the
    resource packs, and the four lines were printed.  The merge engine is
    the one of the specification, [quiet], which prints nothing. *)
Theorem run_full_Ok (prog raw : string) (rest : list string)
    (fields : list (string * json)) (ud : json) (w w' : World) :
  json_loads raw = Ok (JObj fields) ->
  dict_get "update_depth" fields = Some ud ->
  eq_str ud "shallow" = false ->
  run (quiet merge) json_loads (prog :: "on_instance_setup" :: raw :: rest) w
  = (Ok tt, w') ->
  exists g dirs calls,
    dict_get "game_dir" fields = Some (JStr g)
    /\ fst (datapack_dirs_of (JObj fields) (Path_of_string g) w) = Ok dirs
    /\ stdout w' = stdout w ++ started_lines ++ finished_lines
    /\ weld_calls w' = weld_calls w ++ calls
    /\ map call_directory calls
       = dirs ++ [Path_of_string g ++ ["resourcepacks"]].
Proof.
  intros Hl Hud Hs. rewrite (run_full_eq (quiet merge) json_loads prog raw rest fields ud w) by done.
  destruct (dict_get "game_dir" fields) as [[| | | |g| |]|]; try done.
  cbv zeta.
  destruct (fst (datapack_dirs_of (JObj fields) (Path_of_string g) w))
    as [dirs|e] eqn:Ed; [|done].
  pose proof (run_tail dirs [Path_of_string g ++ ["resourcepacks"]] (started w))
    as Htail.
  intros E. rewrite E in Htail. destruct Htail as (Hout & calls & Hc & Hd).
  exists g, dirs, calls. split_and!; try done.
  simpl in Hout. by rewrite Hout, <- app_assoc.
Qed.

End HookLines.

(** * The protocol lines read back *)

Lemma append_cons (c : ascii) (s t : string) :
  String c s +:+ t = String c (s +:+ t).
Proof. reflexivity. Qed.

Lemma append_assoc (a b c : string) : (a +:+ b) +:+ c = a +:+ (b +:+ c).
Proof.
  induction a as [|x a IH]; [done|]. by rewrite !append_cons, IH.
Qed.

Lemma strip_app (pre s : string) : strip pre (pre +:+ s) = Some s.
Proof.
  induction pre as [|c pre IH]; [done|].
  rewrite append_cons. simpl. by rewrite Ascii.eqb_refl.
Qed.

Lemma plain_char_not_quote (c : ascii) :
  plain_char c = true -> Ascii.eqb c "034" = false.
Proof.
  unfold plain_char. intros H. apply Ascii.eqb_neq. intros ->.
  by vm_compute in H.
Qed.

Lemma plain_char_escape (c : ascii) :
  plain_char c = true -> escape_char c = String c "".
Proof.
  unfold plain_char, escape_char. intros H.
  apply andb_prop in H as [H H92]. apply andb_prop in H as [H H34].
  apply andb_prop in H as [Hlo Hhi].
  apply negb_true_iff in H34, H92.
  apply N.leb_le in Hlo, Hhi. apply N.eqb_neq in H34, H92.
  cbv zeta. rewrite (proj2 (N.eqb_neq _ 34)), (proj2 (N.eqb_neq _ 92)) by done.
  rewrite !(proj2 (N.eqb_neq _ _)) by lia.
  rewrite (proj2 (N.ltb_ge _ 32)), (proj2 (N.ltb_ge 126 _)) by lia.
  done.
Qed.

Lemma plain_escape (s : string) : plain s = true -> escape_string s = s.
Proof.
  induction s as [|c s IH]; [done|]. simpl.
  intros [Hc Hs]%andb_prop. by rewrite plain_char_escape, IH.
Qed.

Lemma until_quote_plain (s rest : string) :
  plain s = true -> until_quote (s +:+ dq +:+ rest) = s.
Proof.
  induction s as [|c s IH]; [done|]. simpl.
  intros [Hc Hs]%andb_prop. by rewrite plain_char_not_quote, IH.
Qed.

(** X19.  For a method name of printable ASCII characters other than the
    quote and the backslash, [output] returns after one call of [print],
    whose text starts with the sentinel, and the host reads the method back
    from that text, in the bare form as in the form with data.  In the bare
    form the text holds no line break: it is one line of the output. *)
Theorem output_method_read_back (method : string) (data : json) (w : World) :
  plain method = true ->
  exists line,
    output method data w
    = (Ok tt, mkWorld (fs w) (stdout w ++ [line]) (weld_calls w))
    /\ strip "%_" line <> None
    /\ event_method line = Some method
    /\ (data = JNull ->
        Forall (fun c => c ≠ "010"%char) (list_ascii_of_string line)).
Proof.
  intros Hplain.
  assert (forall body,
            strip dq body = Some (method +:+ dq)
            \/ (strip dq body = None
                /\ exists rest, strip ("{" +:+ dq) body
                                = Some (method +:+ dq +:+ rest)) ->
            event_method ("%_" +:+ body) = Some method) as Hread.
  { intros body H. unfold event_method. rewrite strip_app.
    destruct H as [->|[-> [rest ->]]].
    - change (method +:+ dq) with (method +:+ dq +:+ "").
      by rewrite until_quote_plain.
    - by rewrite until_quote_plain. }
  assert (forall v, v ≠ JNull ->
            output method v w
            = (Ok tt, mkWorld (fs w)
                 (stdout w ++ ["%_" +:+ json_dumps (JObj [(method, v)])])
                 (weld_calls w))) as Hout.
  { intros v Hv. by destruct v. }
  assert (data = JNull \/ data ≠ JNull) as [->|Hdata]
    by (destruct data; auto).
  - eexists. split_and!; [reflexivity|by rewrite strip_app| |].
    + apply Hread. left. apply strip_app.
    + intros _. simpl. do 3 (constructor; [done|]).
      clear Hread Hout. induction method as [|c m IH]; simpl.
      * by repeat constructor.
      * simpl in Hplain. apply andb_prop in Hplain as [Hc Hm].
        constructor; [|by apply IH].
        intros ->. by vm_compute in Hc.
  - eexists. split_and!; [by apply Hout|by rewrite strip_app| |done].
    apply Hread. right. split; [done|].
    exists (": " +:+ json_dumps data +:+ "}").
    simpl. unfold dumps_str. rewrite plain_escape by done.
    rewrite !append_assoc. reflexivity.
Qed.


(** * The generator of the version table *)

Lemma str_in_elem_of (x : string) (l : list string) :
  str_in x l = true <-> x ∈ l.
Proof.
  unfold str_in. rewrite existsb_exists. split.
  - intros (y & Hin & ->%String.eqb_eq). by apply list_elem_of_In.
  - intros Hin. exists x. split; [by apply list_elem_of_In|apply String.eqb_refl].
Qed.

Lemma sub_separators_clean (s : string) :
  Forall (fun c => c ≠ "."%char /\ c ≠ "-"%char /\ c ≠ " "%char)
         (list_ascii_of_string (sub_separators s)).
Proof.
  induction s as [|c s IH]; simpl; constructor; [|done].
  destruct (Ascii.eqb c ".") eqn:E1; [done|].
  destruct (Ascii.eqb c "-") eqn:E2; [done|].
  destruct (Ascii.eqb c " ") eqn:E3; [done|]. simpl.
  by apply Ascii.eqb_neq in E1, E2, E3.
Qed.

Lemma zip_map_self {A B} (f : A -> B) (l : list A) :
  zip (map f l) l = map (fun x => (f x, x)) l.
Proof. induction l as [|x l IH]; simpl; [done|]. by rewrite IH. Qed.

Lemma reverse_map {A B} (f : A -> B) (l : list A) :
  reverse (map f l) = map f (reverse l).
Proof.
  induction l as [|x l IH]; [done|]. simpl.
  by rewrite !reverse_cons, map_app, IH.
Qed.

Section VersionEnumProperties.
Variable str_upper : string -> string.
Variable py_repr : json -> string.

Local Abbreviation enum_name' := (enum_name str_upper).

(** X20.  The name of an enumerator starts with [V_] and holds no dot, hyphen
    or space, whatever the version id is. *)
Theorem enum_name_shape (id : string) :
  String.prefix "V_" (enum_name str_upper id) = true
  /\ Forall (fun c => c ≠ "."%char /\ c ≠ "-"%char /\ c ≠ " "%char)
            (list_ascii_of_string (enum_name str_upper id)).
Proof.
  split.
  - unfold enum_name. rewrite !append_cons. simpl.
    by destruct (sub_separators (str_upper id)).
  - unfold enum_name. simpl. repeat (constructor; [done|]).
    apply sub_separators_clean.
Qed.

Lemma collect_names_spec (versions : list json) (ids raws : list string) :
  Forall2 (has_id py_repr) versions ids ->
  NoDup (map enum_name' raws) ->
  collect_names str_upper py_repr versions (map enum_name' raws) raws
  = if decide (NoDup (map enum_name' (raws ++ ids)))
    then inr (map enum_name' (raws ++ ids), raws ++ ids)
    else inl AssertionError.
Proof.
  intros Hids. revert raws.
  induction Hids as [|version id versions ids (v & Hv & ->) _ IH];
    intros raws Hnd; simpl.
  { rewrite app_nil_r. by rewrite decide_True. }
  rewrite Hv.
  destruct (str_in (enum_name' (py_str py_repr v)) (map enum_name' raws))
    eqn:Hin.
  - apply str_in_elem_of in Hin. rewrite decide_False; [done|].
    rewrite map_app. simpl. intros Hnd'.
    apply NoDup_app in Hnd' as (_ & Hdisj & _).
    apply (Hdisj _ Hin). left.
  - assert (enum_name' (py_str py_repr v) ∉ map enum_name' raws) as Hnot.
    { intros H. apply str_in_elem_of in H. congruence. }
    specialize (IH (raws ++ [py_str py_repr v])).
    rewrite map_app in IH. simpl in IH. rewrite IH.
    + by rewrite <- !app_assoc.
    + apply NoDup_app. split_and!; [done| |apply NoDup_singleton].
      intros x Hx ->%list_elem_of_singleton. done.
Qed.

(** X21.  The loop over the versions and its assertion.  When every version
    of the manifest has an id, the loop returns exactly when no two ids give
    the same enumerator name, and then with the names and the ids in the
    order of the manifest; two ids with the same name stop the script with
    [AssertionError]. *)
Theorem collect_names_assertion (versions : list json) (ids : list string) :
  Forall2 (has_id py_repr) versions ids ->
  collect_names str_upper py_repr versions [] []
  = if decide (NoDup (map enum_name' ids))
    then inr (map enum_name' ids, ids)
    else inl AssertionError.
Proof.
  intros H. apply (collect_names_spec versions ids []); [done|constructor].
Qed.

(** What a loop that returns has gone through. *)
Lemma collect_names_inv (versions : list json) (names0 raws0 names raws : list string) :
  collect_names str_upper py_repr versions names0 raws0 = inr (names, raws) ->
  exists ids,
    Forall2 (has_id py_repr) versions ids
    /\ raws = raws0 ++ ids
    /\ names = names0 ++ map enum_name' ids.
Proof.
  revert names0 raws0. induction versions as [|version versions IH];
    intros names0 raws0 E; simpl in E.
  { injection E as <- <-. exists []. by rewrite !app_nil_r. }
  destruct (script_getitem version "id") as [e|v] eqn:Hv; [done|].
  destruct (str_in _ names0); [done|].
  apply IH in E as (ids & Hids & -> & ->).
  exists (py_str py_repr v :: ids). split_and!.
  - constructor; [by exists v|done].
  - by rewrite <- app_assoc.
  - by rewrite <- app_assoc.
Qed.

(** X22.  The header that is written.  When the script gets to write
    [versions.hh], the manifest had a list of versions with ids whose names
    are all different, and the header lists them in the reverse of the order
    of the manifest; in both maps each entry pairs an id with the name made
    from that very id. *)
Theorem version_enum_header (man : json) (text : string) :
  version_enum str_upper py_repr man = inr text ->
  exists versions items ids,
    script_getitem man "versions" = inr versions
    /\ script_iter versions = inr items
    /\ Forall2 (has_id py_repr) items ids
    /\ NoDup (map enum_name' ids)
    /\ text = header_text (map enum_name' (reverse ids)) (reverse ids)
    /\ map (fun nr => forward_entry (fst nr) (snd nr))
           (zip (map enum_name' (reverse ids)) (reverse ids))
       = map (fun raw => forward_entry (enum_name' raw) raw) (reverse ids)
    /\ map (fun nr => reverse_entry (fst nr) (snd nr))
           (zip (map enum_name' (reverse ids)) (reverse ids))
       = map (fun raw => reverse_entry (enum_name' raw) raw) (reverse ids).
Proof.
  unfold version_enum. intros E.
  destruct (script_getitem man "versions") as [e|versions] eqn:Ev; [done|].
  destruct (script_iter versions) as [e|items] eqn:Ei; [done|].
  destruct (collect_names str_upper py_repr items [] []) as [e|[names raws]]
    eqn:Ec; [done|].
  injection E as <-.
  destruct (collect_names_inv _ _ _ _ _ Ec) as (ids & Hids & -> & ->).
  pose proof (collect_names_spec items ids [] Hids (NoDup_nil_2 (A:=string))) as Hspec.
  simpl in Hspec. rewrite Hspec in Ec.
  destruct (decide (NoDup (map enum_name' ids))) as [Hnd|]; [|done].
  exists versions, items, ids. rewrite !app_nil_l, reverse_map.
  split_and!; try done.
  - by rewrite zip_map_self, map_map.
  - by rewrite zip_map_self, map_map.
Qed.
End VersionEnumProperties.


(** * The properties on sample instances *)

Lemma output_method_read_back_witness :
  exists line,
    output "start_process" JNull (world_of ∅)
    = (Ok tt, mkWorld ∅ ([] ++ [line]) [])
    /\ strip "%_" line <> None
    /\ event_method line = Some "start_process"
    /\ (JNull = JNull ->
        Forall (fun c => c ≠ "010"%char) (list_ascii_of_string line)).
Proof.
  apply (output_method_read_back "start_process" JNull (world_of ∅)).
  reflexivity.
Defined.

Lemma weld_dir_not_a_directory_witness :
  weld_dir (quiet weld_names) ["/"; "inst"; "world"; "datapacks"] (world_of sample_fs)
  = (Raise OSError, world_of sample_fs).
Proof.
  apply (weld_dir_not_a_directory (quiet weld_names)).
  vm_compute. discriminate.
Defined.

Lemma weld_dir_outside_witness :
  fs (snd (weld_dir (quiet weld_names) packs_dir (world_of sample_fs))) !! ["/"; "inst"]
  = fs (world_of sample_fs) !! ["/"; "inst"].
Proof.
  apply (weld_dir_outside weld_names packs_dir ["/"; "inst"]).
  left. reflexivity.
Defined.

Lemma weld_dir_keeps_directories_witness :
  fs (snd (weld_dir (quiet weld_names) packs_dir (world_of sample_fs)))
    !! (packs_dir ++ ["sub"])
  = Some Dir.
Proof.
  apply (weld_dir_keeps_directories weld_names packs_dir "sub").
  - reflexivity.
  - discriminate.
Defined.

Lemma weld_dir_keeps_quarantined_witness :
  fs (snd (weld_dir (quiet weld_names) packs_dir (world_of second_pass_fs)))
    !! (packs_dir ++ ["unwelded"; "a.zip"])
  = fs (world_of second_pass_fs) !! (packs_dir ++ ["unwelded"; "a.zip"]).
Proof.
  apply (weld_dir_keeps_quarantined weld_names packs_dir "a.zip").
  intros data H. vm_compute in H. discriminate.
Defined.

Lemma weld_dir_Ok_inv_witness :
  let w := world_of sample_fs in
  let w' := snd (weld_dir (with_cache weld_names) packs_dir w) in
  exists wq call ctx f1 out1 f2 out2 out3,
    weld_dir_quarantine packs_dir w = (Ok tt, wq)
    /\ is_weld_call packs_dir (fs wq) call
    /\ weld_calls w' = weld_calls w ++ [call]
    /\ with_cache weld_names (call_packs call) (call_config call)
                  (call_directory call) (fs wq)
       = (Ok ctx, f1, out1)
    /\ ((ctx_data_save ctx (packs_dir ++ ["weld_pack.zip"]) f1 = (Ok tt, f2, out2)
         /\ exists b, leave ctx None f2 = (Ok b, fs w', out3))
        \/ (exists e,
              ctx_data_save ctx (packs_dir ++ ["weld_pack.zip"]) f1
              = (Raise e, f2, out2)
              /\ leave ctx (Some e) f2 = (Ok true, fs w', out3)))
    /\ stdout w' = stdout w ++ out1 ++ out2 ++ out3.
Proof.
  apply (weld_dir_Ok_inv (with_cache weld_names) packs_dir (world_of sample_fs)).
  vm_compute. reflexivity.
Defined.

Lemma weld_dir_Raise_inv_witness :
  let w := world_of sample_fs in
  let w' := snd (weld_dir weld_exit_broken packs_dir w) in
  let e := Exception "exit failed" in
  (e = OSError /\ weld_dir_quarantine packs_dir w = (Raise OSError, w')
   /\ weld_calls w' = weld_calls w)
  \/ exists wq call,
       weld_dir_quarantine packs_dir w = (Ok tt, wq)
       /\ is_weld_call packs_dir (fs wq) call
       /\ weld_calls w' = weld_calls w ++ [call]
       /\ ((exists out1,
              weld_exit_broken (call_packs call) (call_config call)
                               (call_directory call) (fs wq)
              = (Raise e, fs w', out1))
           \/ exists ctx f1 out1 f2 out2 out3,
                weld_exit_broken (call_packs call) (call_config call)
                                 (call_directory call) (fs wq)
                = (Ok ctx, f1, out1)
                /\ ((ctx_data_save ctx (packs_dir ++ ["weld_pack.zip"]) f1
                     = (Ok tt, f2, out2)
                     /\ leave ctx None f2 = (Raise e, fs w', out3))
                    \/ exists e0,
                         ctx_data_save ctx (packs_dir ++ ["weld_pack.zip"]) f1
                         = (Raise e0, f2, out2)
                         /\ (leave ctx (Some e0) f2 = (Raise e, fs w', out3)
                             \/ (e = e0
                                 /\ leave ctx (Some e0) f2
                                    = (Ok false, fs w', out3))))).
Proof.
  apply (weld_dir_Raise_inv weld_exit_broken packs_dir (world_of sample_fs)).
  vm_compute. reflexivity.
Defined.

Lemma weld_dir_holding_is_file_witness :
  exists w',
    weld_dir (quiet weld_names) packs_dir (world_of blocked_fs) = (Raise OSError, w')
    /\ weld_calls w' = weld_calls (world_of blocked_fs).
Proof.
  apply (weld_dir_holding_is_file (quiet weld_names) packs_dir "not a directory").
  reflexivity.
Defined.

Lemma weld_dir_collision_witness :
  exists w',
    weld_dir (quiet weld_names) packs_dir (world_of collision_fs) = (Raise OSError, w')
    /\ fs w' !! (packs_dir ++ ["a.zip"]) = Some (File "A")
    /\ fs w' !! (packs_dir ++ ["unwelded"; "a.zip"]) = Some Dir
    /\ weld_calls w' = weld_calls (world_of collision_fs).
Proof.
  apply (weld_dir_collision (quiet weld_names) packs_dir "a.zip" "A");
    reflexivity.
Defined.

Lemma datapack_dirs_override_witness :
  datapack_dirs_of (context "full" "client" (JStr "datapacks")) ["/"; "inst"]
                   (world_of saves_fs)
  = (Ok [["/"; "inst"; "datapacks"]], world_of saves_fs).
Proof.
  exact (datapack_dirs_override
           [("update_depth", JStr "full"); ("game_dir", JStr "/inst");
            ("side", JStr "client"); ("config", JObj [("datapack_folder", JStr "datapacks")])]
           [("datapack_folder", JStr "datapacks")] "datapacks" ["/"; "inst"]
           (world_of saves_fs) eq_refl eq_refl).
Defined.

Lemma datapack_dirs_server_witness :
  datapack_dirs_of (context "full" "server" JNull) ["/"; "inst"]
                   (world_of saves_fs)
  = (Ok [["/"; "inst"; "world"; "datapacks"]], world_of saves_fs).
Proof.
  exact (datapack_dirs_server
           [("update_depth", JStr "full"); ("game_dir", JStr "/inst");
            ("side", JStr "server"); ("config", JObj [("datapack_folder", JNull)])]
           [("datapack_folder", JNull)] (JStr "server") ["/"; "inst"]
           (world_of saves_fs) eq_refl eq_refl eq_refl eq_refl).
Defined.

Lemma datapack_dirs_client_save_witness :
  datapack_dirs_of (context "full" "client" JNull) ["/"; "inst"]
                   (world_of saves_fs)
  = (Raise AttributeError, world_of saves_fs).
Proof.
  exact (datapack_dirs_client_save
           [("update_depth", JStr "full"); ("game_dir", JStr "/inst");
            ("side", JStr "client"); ("config", JObj [("datapack_folder", JNull)])]
           [("datapack_folder", JNull)] ["/"; "inst"] (world_of saves_fs)
           eq_refl eq_refl eq_refl "A" eq_refl eq_refl).
Defined.

Lemma no_save_fs_saves_empty (name : string) :
  no_save_fs !! ["/"; "inst"; "saves"; name] = None.
Proof.
  unfold no_save_fs. apply not_elem_of_list_to_map. simpl.
  repeat (apply not_elem_of_cons; split; [discriminate|]).
  apply not_elem_of_nil.
Qed.

Lemma datapack_dirs_client_no_save_witness :
  datapack_dirs_of (context "full" "client" JNull) ["/"; "inst"]
                   (world_of no_save_fs)
  = (Ok [], world_of no_save_fs).
Proof.
  refine (datapack_dirs_client_no_save
            [("update_depth", JStr "full"); ("game_dir", JStr "/inst");
            ("side", JStr "client"); ("config", JObj [("datapack_folder", JNull)])]
            [("datapack_folder", JNull)] ["/"; "inst"] (world_of no_save_fs)
            eq_refl eq_refl eq_refl eq_refl _).
  intros name.
  change (no_save_fs !! ["/"; "inst"; "saves"; name] ≠ Some Dir).
  rewrite no_save_fs_saves_empty. discriminate.
Defined.

Lemma datapack_dirs_client_no_saves_dir_witness :
  datapack_dirs_of (context "full" "client" JNull) ["/"; "inst"]
                   (world_of sample_fs)
  = (Raise StopIteration, world_of sample_fs).
Proof.
  refine (datapack_dirs_client_no_saves_dir
            [("update_depth", JStr "full"); ("game_dir", JStr "/inst");
            ("side", JStr "client"); ("config", JObj [("datapack_folder", JNull)])]
            [("datapack_folder", JNull)] ["/"; "inst"] (world_of sample_fs)
            eq_refl eq_refl eq_refl _).
  vm_compute. discriminate.
Defined.

Lemma run_full_Ok_witness :
  let w := world_of server_fs in
  let arg := context "full" "server" JNull in
  let argv := ["main.py"; "on_instance_setup"; json_dumps arg] in
  let w' := snd (run (quiet weld_names) (loads_table sample_contexts) argv w) in
  exists g dirs calls,
    dict_get "game_dir"
      [("update_depth", JStr "full"); ("game_dir", JStr "/inst");
       ("side", JStr "server"); ("config", JObj [("datapack_folder", JNull)])]
    = Some (JStr g)
    /\ fst (datapack_dirs_of arg (Path_of_string g) w) = Ok dirs
    /\ stdout w' = stdout w ++ started_lines ++ finished_lines
    /\ weld_calls w' = weld_calls w ++ calls
    /\ map call_directory calls
       = dirs ++ [Path_of_string g ++ ["resourcepacks"]].
Proof.
  apply (run_full_Ok weld_names (loads_table sample_contexts) "main.py"
           (json_dumps (context "full" "server" JNull)) [] _ (JStr "full")
           (world_of server_fs)).
  - vm_compute. reflexivity.
  - reflexivity.
  - reflexivity.
  - vm_compute. reflexivity.
Defined.

Lemma main_missing_arguments_witness :
  main (quiet weld_names) (loads_table sample_contexts) [] (world_of sample_fs)
  = (Raise IndexError, world_of sample_fs).
Proof.
  apply (main_missing_arguments (quiet weld_names) (loads_table sample_contexts)).
  left. simpl. lia.
Defined.

Lemma main_context_unreadable_witness :
  main (quiet weld_names) (loads_table sample_contexts)
       ["main.py"; "on_instance_setup"; "{"] (world_of sample_fs)
  = (Raise JSONDecodeError, world_of sample_fs).
Proof.
  apply (main_context_unreadable (quiet weld_names) (loads_table sample_contexts)
           "main.py" "{" [] (world_of sample_fs)).
  intros fields H. vm_compute in H. discriminate.
Defined.

Lemma main_other_hook_witness :
  let w := world_of sample_fs in
  main (quiet weld_names) (loads_table sample_contexts)
       ["main.py"; "on_instance_stop"; "not even JSON"] w
  = (Ok tt, mkWorld (fs w) (stdout w ++ [set_result_line]) (weld_calls w)).
Proof.
  apply (main_other_hook (quiet weld_names) (loads_table sample_contexts)).
  discriminate.
Defined.

Lemma collect_names_assertion_witness :
  collect_names ascii_upper json_dumps
    [JObj [("id", JStr "1.0")]; JObj [("id", JStr "1-0")]] [] []
  = inl AssertionError.
Proof.
  apply (collect_names_assertion ascii_upper json_dumps
           [JObj [("id", JStr "1.0")]; JObj [("id", JStr "1-0")]]
           ["1.0"; "1-0"]).
  repeat constructor; eexists; split; reflexivity.
Defined.

Lemma version_enum_header_witness :
  let man := manifest_of ["1.19.2"; "22w14a"] in
  exists versions items ids,
    script_getitem man "versions" = inr versions
    /\ script_iter versions = inr items
    /\ Forall2 (has_id json_dumps) items ids
    /\ NoDup (map (enum_name ascii_upper) ids)
    /\ header_text (map (enum_name ascii_upper) ["22w14a"; "1.19.2"])
                   ["22w14a"; "1.19.2"]
       = header_text (map (enum_name ascii_upper) (reverse ids)) (reverse ids)
    /\ map (fun nr => forward_entry (fst nr) (snd nr))
           (zip (map (enum_name ascii_upper) (reverse ids)) (reverse ids))
       = map (fun raw => forward_entry (enum_name ascii_upper raw) raw)
             (reverse ids)
    /\ map (fun nr => reverse_entry (fst nr) (snd nr))
           (zip (map (enum_name ascii_upper) (reverse ids)) (reverse ids))
       = map (fun raw => reverse_entry (enum_name ascii_upper raw) raw)
             (reverse ids).
Proof.
  apply (version_enum_header ascii_upper json_dumps
           (manifest_of ["1.19.2"; "22w14a"])).
  vm_compute. reflexivity.
Defined.
